(** * Flight delay analysis: a shallow embedding of [flight_analysis.py]

    The Python module prepares pandas tables for plotting.  The embedding
    below keeps the shape of the source: a table is a pandas [DataFrame]
    (named columns of equal length), a missing value is [NaN], errors are
    the Python exceptions the library calls raise, and the one table the
    caller passes in as [df] is an object that the functions read and (in
    [compute_combo_chart]) write in place.

    Numbers are exact rationals: a float64 cell is idealised by the
    rational it denotes, so rounding, infinities and overflow are outside
    the model.  The library calls follow pandas 2: a reduction adds what
    it is given ([+] on two strings concatenates, on a number and a
    string it raises [TypeError]) and drops no column on its own.  The
    plotting calls ([hvplot], [holoviews], [panel]) are kept as the data
    they are handed. *)

From Stdlib Require Import QArith Qround.
From stdpp Require Import base option list strings gmap sorting.

Local Open Scope string_scope.

(** ** Values, exceptions *)

(** A cell of a table: a number, a string, or a missing value (pandas'
    NaN / None). *)
Inductive cell : Type :=
| Num (q : Q)
| Str (s : string)
| NaN.

(** The exceptions the modelled calls can raise.  [KeyError] carries the
    labels its message names. *)
Inductive pyexc : Type :=
| KeyError (names : list string)
| TypeError
| ValueError.

Inductive outcome (A : Type) : Type :=
| Ok (a : A)
| Raise (e : pyexc).
Arguments Ok {A} a.
Arguments Raise {A} e.

Global Instance outcome_ret : MRet outcome := λ A a, Ok a.
Global Instance outcome_bind : MBind outcome := λ A B f m,
  match m with
  | Ok a => f a
  | Raise e => Raise e
  end.

Fixpoint traverse {A B : Type} (f : A → outcome B) (l : list A)
  : outcome (list B) :=
  match l with
  | [] => Ok []
  | a :: l' => b ← f a; bs ← traverse f l'; Ok (b :: bs)
  end.

(** ** Cells *)

Global Instance cell_inhabited : Inhabited cell := populate NaN.

Definition isnull (c : cell) : bool :=
  match c with NaN => true | _ => false end.

Definition notna (c : cell) : bool := negb (isnull c).

(** [==] between two scalars: numbers compare by value, strings by
    content, a missing value equals nothing (not even itself), and a
    number never equals a string. *)
Definition cell_eqb (a b : cell) : bool :=
  match a, b with
  | Num p, Num q => Qeq_bool p q
  | Str s, Str t => bool_decide (s = t)
  | _, _ => false
  end.

(** [<=] on sort keys: numbers by value, strings by code unit, and (as
    pandas' sorting of mixed labels does) numbers before strings,
    missing values last. *)
Definition cell_leb (a b : cell) : bool :=
  match a, b with
  | Num p, Num q => Qle_bool p q
  | Num _, _ => true
  | Str _, Num _ => false
  | Str s, Str t => String.leb s t
  | Str _, NaN => true
  | NaN, NaN => true
  | NaN, _ => false
  end.

(** Python's [+] on two non-missing values. *)
Definition py_add (a b : cell) : outcome cell :=
  match a, b with
  | Num p, Num q => Ok (Num (p + q))
  | Str s, Str t => Ok (Str (s ++ t))
  | _, _ => Raise TypeError
  end.

Fixpoint add_all (acc : cell) (l : list cell) : outcome cell :=
  match l with
  | [] => Ok acc
  | c :: l' => acc' ← py_add acc c; add_all acc' l'
  end.

(** Reduction by [+]: 0 for no operand, else the operands added left to
    right starting from the first. *)
Definition reduce_add (l : list cell) : outcome cell :=
  match l with
  | [] => Ok (Num 0)
  | c :: l' => add_all c l'
  end.

Definition fillna0 (c : cell) : cell :=
  match c with NaN => Num 0 | _ => c end.

(** [Series.sum()] and [DataFrame.sum(axis=1)] ([skipna=True]): missing
    values count as 0. *)
Definition nansum (l : list cell) : outcome cell :=
  reduce_add (fillna0 <$> l).

(** The per-group sum of [groupby(...).sum()]: missing values are
    skipped, an all-missing group sums to 0. *)
Definition group_sum (l : list cell) : outcome cell :=
  reduce_add (filter (λ c, notna c = true) l).

(** [mean(axis=1)] of one row ([skipna=True]): the mean of the present
    numbers, NaN when there is none. *)
Definition nanmean (l : list cell) : outcome cell :=
  let present := filter (λ c, notna c = true) l in
  match present with
  | [] => Ok NaN
  | _ =>
      s ← reduce_add present;
      match s with
      | Num q => Ok (Num (q / inject_Z (Z.of_nat (length present))))
      | _ => Raise TypeError
      end
  end.

(** Truncation toward zero, Python's [int()] on a number. *)
Definition Qtrunc (q : Q) : Z :=
  if Qle_bool 0 q then Qfloor q else Qceiling q.

(** ** Tables *)

Abbreviation Series := (list cell).

(** A [DataFrame]: the length of its index and its columns in order,
    each a label with its values. *)
Record DataFrame : Type := mkDF {
  nrows : nat;
  cols : list (string * Series)
}.

Definition columns (df : DataFrame) : list string := (cols df).*1.

(** Every column is as long as the index and labels are unique. *)
Definition wf_df (df : DataFrame) : Prop :=
  NoDup (columns df) ∧ Forall (λ p, length p.2 = nrows df) (cols df).

Fixpoint col_lookup (c : string) (l : list (string * Series))
  : option Series :=
  match l with
  | [] => None
  | (c', s) :: l' => if decide (c = c') then Some s else col_lookup c l'
  end.

(** [df[c]] *)
Definition getitem (df : DataFrame) (c : string) : outcome Series :=
  match col_lookup c (cols df) with
  | Some s => Ok s
  | None => Raise (KeyError [c])
  end.

Definition col_total (df : DataFrame) (c : string) : Series :=
  default [] (col_lookup c (cols df)).

(** [df[cs]] for a list of labels: a new frame with those columns; a
    [KeyError] names the labels that are not columns. *)
Definition getitem_list (df : DataFrame) (cs : list string)
  : outcome DataFrame :=
  let missing := filter (λ c, c ∉ columns df) cs in
  match missing with
  | [] => Ok (mkDF (nrows df) ((λ c, (c, col_total df c)) <$> cs))
  | _ =>
      Raise (KeyError (if decide (length missing = length cs)
                       then cs else remove_dups missing))
  end.

Fixpoint col_update (c : string) (s : Series) (l : list (string * Series))
  : list (string * Series) :=
  match l with
  | [] => [(c, s)]
  | (c', s') :: l' =>
      if decide (c = c') then (c, s) :: l' else (c', s') :: col_update c s l'
  end.

(** The frame after [df[c] = s], for a series [s] on [df]'s own index:
    column [c] is replaced where it stands, or appended. *)
Definition setitem (df : DataFrame) (c : string) (s : Series) : DataFrame :=
  mkDF (nrows df) (col_update c s (cols df)).

(** Row [i] of a frame, one cell per column. *)
Definition row (df : DataFrame) (i : nat) : list cell :=
  (λ p, p.2 !!! i) <$> cols df.

Definition row_indices (df : DataFrame) : list nat := seq 0 (nrows df).

(** [df.sum(axis=1)] *)
Definition sum_axis1 (df : DataFrame) : outcome Series :=
  traverse (λ i, nansum (row df i)) (row_indices df).

(** [df.mean(axis=1)] *)
Definition mean_axis1 (df : DataFrame) : outcome Series :=
  traverse (λ i, nanmean (row df i)) (row_indices df).

(** [df[mask]] for a boolean series on [df]'s index. *)
Fixpoint select {A : Type} (mask : list bool) (l : list A) : list A :=
  match mask, l with
  | b :: mask', a :: l' => if b then a :: select mask' l' else select mask' l'
  | _, _ => []
  end.

Definition count_true (mask : list bool) : nat :=
  length (filter (λ b, b = true) mask).

Definition getitem_mask (df : DataFrame) (mask : list bool) : DataFrame :=
  mkDF (count_true (take (nrows df) mask))
       ((λ p, (p.1, select mask p.2)) <$> cols df).

(** [df.empty]: some axis has length 0. *)
Definition empty (df : DataFrame) : bool :=
  bool_decide (nrows df = 0%nat) || bool_decide (cols df = []).

(** [df.isnull().sum()]: per column, the number of missing values. *)
Definition isnull_sum (df : DataFrame) : list (string * nat) :=
  (λ p, (p.1, length (filter (λ c, isnull c = true) p.2))) <$> cols df.

(** [Series.to_dict()]: a later entry for a label overwrites an earlier
    one. *)
Definition to_dict (l : list (string * nat)) : gmap string nat :=
  foldl (λ m p, <[p.1 := p.2]> m) ∅ l.

(** ** The caller's table as an object

    A computation runs against the table object the caller passed in: it
    may raise, and it leaves the object in a final state, which is what
    the caller sees afterwards, also when an exception escapes. *)
Definition Py (A : Type) : Type := DataFrame → outcome A * DataFrame.

Global Instance Py_ret : MRet Py := λ A a σ, (Ok a, σ).
Global Instance Py_bind : MBind Py := λ A B f m σ,
  match m σ with
  | (Ok a, σ') => f a σ'
  | (Raise e, σ') => (Raise e, σ')
  end.

(** Read the object through a call that does not modify it. *)
Definition reads {A : Type} (f : DataFrame → outcome A) : Py A :=
  λ σ, (f σ, σ).

(** A computation on values only. *)
Definition lift {A : Type} (m : outcome A) : Py A := λ σ, (m, σ).

(** [df[c] = s] *)
Definition assign (c : string) (s : Series) : Py unit :=
  λ σ, (Ok (), setitem σ c s).

(** ** [validate_data] *)

Record report : Type := mkReport {
  missing_columns : list string;
  missing_values : gmap string nat;
  is_valid : bool
}.

Definition validate_data (required_cols : list string) : Py report :=
  let results := mkReport [] ∅ true in
  (* Missing columns *)
  df_columns ← reads (λ df, Ok (columns df));
  let missing_cols := filter (λ c, c ∉ df_columns) required_cols in
  let results :=
    if bool_decide (missing_cols ≠ [])
    then mkReport missing_cols (missing_values results) false
    else results in
  (* Missing values *)
  let present_cols := filter (λ c, c ∈ df_columns) required_cols in
  selected ← reads (λ df, getitem_list df present_cols);
  let missing_vals := isnull_sum selected in
  let results :=
    mkReport (missing_columns results)
             (to_dict (filter (λ p, (0 < p.2)%nat) missing_vals))
             (is_valid results) in
  let results :=
    if bool_decide (missing_values results ≠ ∅)
    then mkReport (missing_columns results) (missing_values results) false
    else results in
  mret results.

(** ** Grouping *)

(** A group key: one cell per grouping column. *)
Abbreviation key := (list cell).

Fixpoint key_eqb (k1 k2 : key) : bool :=
  match k1, k2 with
  | [], [] => true
  | a :: k1', b :: k2' => cell_eqb a b && key_eqb k1' k2'
  | _, _ => false
  end.

(** Keys are ordered column by column. *)
Fixpoint key_leb (k1 k2 : key) : bool :=
  match k1, k2 with
  | [], _ => true
  | _ :: _, [] => false
  | a :: k1', b :: k2' =>
      if cell_eqb a b then key_leb k1' k2' else cell_leb a b
  end.

Definition key_notna (k : key) : bool := forallb notna k.

(** The key of row [i] under the grouping columns [keys]. *)
Definition row_key (df : DataFrame) (keys : list string) (i : nat) : key :=
  (λ c, col_total df c !!! i) <$> keys.

(** First occurrences, in order. *)
Fixpoint uniq (l : list key) : list key :=
  match l with
  | [] => []
  | k :: l' => k :: filter (λ k', key_eqb k k' = false) (uniq l')
  end.

Fixpoint insert_key (k : key) (l : list key) : list key :=
  match l with
  | [] => [k]
  | k' :: l' => if key_leb k k' then k :: l else k' :: insert_key k l'
  end.

Definition sort_keys (l : list key) : list key := foldr insert_key [] l.

(** The groups of [df.groupby(keys)]: the distinct keys of the rows whose
    key has no missing value ([dropna=True]), in ascending key order
    ([sort=True]). *)
Definition group_keys (df : DataFrame) (keys : list string) : list key :=
  sort_keys (uniq (filter (λ k, key_notna k = true)
                          (row_key df keys <$> row_indices df))).

(** The indices of the rows of group [g]. *)
Definition group_rows (df : DataFrame) (keys : list string) (g : key)
  : list nat :=
  filter (λ i, key_eqb g (row_key df keys i) = true) (row_indices df).

(** A frame with a named (multi-)index: what [groupby(...).sum()]
    returns before [reset_index()]. *)
Record indexed : Type := mkIndexed {
  level_names : list string;
  index : list key;
  frame : DataFrame
}.

(** [df.groupby(keys).sum()] and [df.groupby(keys)[selection].sum()]:
    a grouping label that is not a column raises [KeyError] (the first
    one), as do selected labels that are not columns; without a
    selection every column that is not a grouping column is summed. *)
Definition groupby_sum (df : DataFrame) (keys : list string)
    (selection : option (list string)) : outcome indexed :=
  match filter (λ c, c ∉ columns df) keys with
  | c :: _ => Raise (KeyError [c])
  | [] =>
      summed ←
        match selection with
        | None => Ok (filter (λ c, c ∉ keys) (columns df))
        | Some cs =>
            match filter (λ c, c ∉ columns df) cs with
            | [] => Ok cs
            | missing => Raise (KeyError missing)
            end
        end;
      let groups := group_keys df keys in
      data ← traverse (λ c,
                s ← traverse (λ g,
                       group_sum ((λ i, col_total df c !!! i)
                                    <$> group_rows df keys g)) groups;
                Ok (c, s)) summed;
      Ok (mkIndexed keys groups (mkDF (length groups) data))
  end.

(** [reset_index()]: the index levels become the first columns; a level
    whose name is already a column (or repeats) cannot be inserted. *)
Definition reset_index (g : indexed) : outcome DataFrame :=
  if bool_decide (NoDup (level_names g) ∧
                  Forall (λ n, n ∉ columns (frame g)) (level_names g)) then
    Ok (mkDF (nrows (frame g))
             (imap (λ j n, (n, (λ k : key, k !!! j) <$> index g))
                   (level_names g)
              ++ cols (frame g)))
  else Raise ValueError.

(** ** Sorting *)

(** Rows [indexer] of a frame, in that order. *)
Definition take_rows (df : DataFrame) (indexer : list nat) : DataFrame :=
  mkDF (length indexer)
       ((λ p, (p.1, (λ i, p.2 !!! i) <$> indexer)) <$> cols df).

(** [df.head(n)] *)
Definition head (n : nat) (df : DataFrame) : DataFrame :=
  mkDF (min n (nrows df)) ((λ p, (p.1, take n p.2)) <$> cols df).

Definition is_num (c : cell) : bool :=
  match c with Num _ => true | _ => false end.
Definition is_str (c : cell) : bool :=
  match c with Str _ => true | _ => false end.

Section Sorting.

(** numpy's [argsort] with the default [kind='quicksort'], on values
    without NaN: it returns the positions of the values in ascending
    order of value.  The library fixes nothing more; which of two
    equal values comes first is its choice. *)
Variable argsort : list cell → list nat.

(** pandas' [nargsort]: the ordering positions for [sort_values],
    missing values last.  For a descending sort the values are
    reversed before, and the positions after, the ascending sort. *)
Definition nargsort (items : list cell) (ascending : bool) : list nat :=
  let idx := seq 0 (length items) in
  let non_nan_idx := filter (λ i, notna (items !!! i) = true) idx in
  let nan_idx := filter (λ i, isnull (items !!! i) = true) idx in
  let non_nan_idx :=
    if ascending then non_nan_idx else reverse non_nan_idx in
  let non_nans := (λ i, items !!! i) <$> non_nan_idx in
  let indexer := (λ j, non_nan_idx !!! j) <$> argsort non_nans in
  let indexer := if ascending then indexer else reverse indexer in
  indexer ++ nan_idx.

(** [df.sort_values(by, ascending=...)]; numbers and strings cannot be
    compared with each other. *)
Definition sort_values (df : DataFrame) (by_col : string) (ascending : bool)
  : outcome DataFrame :=
  items ← getitem df by_col;
  if existsb is_num items && existsb is_str items then Raise TypeError
  else Ok (take_rows df (nargsort items ascending)).

End Sorting.

(** What [argsort] guarantees on a list of values: a permutation of the
    positions, ascending in value. *)
Definition sorts (argsort : list cell → list nat) (l : list cell) : Prop :=
  argsort l ≡ₚ seq 0 (length l) ∧
  Sorted (λ a b, cell_leb a b = true) ((λ i, l !!! i) <$> argsort l).

Definition argsort_spec (argsort : list cell → list nat) : Prop :=
  ∀ l, Forall (λ c, notna c = true) l → sorts argsort l.

(** ** Joining *)

(** The row pairs of a left join on one key per side: every left row, in
    order, once per right row with an equal key, or once with no right
    row when there is none. *)
Definition row_matches (lkey rkey : Series) (i : nat) : list nat :=
  filter (λ j, cell_eqb (lkey !!! i) (rkey !!! j) = true)
         (seq 0 (length rkey)).

Definition join_row (lkey rkey : Series) (i : nat)
  : list (nat * option nat) :=
  match row_matches lkey rkey i with
  | [] => [(i, None)]
  | js => (λ j, (i, Some j)) <$> js
  end.

Definition left_join_pairs (lkey rkey : Series) : list (nat * option nat) :=
  i ← seq 0 (length lkey); join_row lkey rkey i.

(** [pd.merge(left, right, left_on=..., right_on=..., how='left')].
    A label carried by both sides gets the suffixes [_x] and [_y]; when
    both keys have the same label the result has that column once.
    Keys are matched with [cell_eqb]; the left keys of this module are
    group labels, which are never missing.  pandas' refusal to join a
    column of strings with a column of numbers depends on the columns'
    dtypes, which a table of cells does not record; such a join finds no
    match here. *)
Definition merge_left (left right : DataFrame) (left_on right_on : string)
  : outcome DataFrame :=
  lkey ← getitem left left_on;
  rkey ← getitem right right_on;
  let pairs := left_join_pairs lkey rkey in
  let rcols :=
    if decide (left_on = right_on)
    then filter (λ p, p.1 ≠ right_on) (cols right) else cols right in
  let shared c :=
    bool_decide (c ∈ columns left ∧ c ∈ rcols.*1) in
  let lpart :=
    (λ p, (if shared p.1 then p.1 ++ "_x" else p.1,
           (λ ij : nat * option nat, p.2 !!! ij.1) <$> pairs)) <$> cols left in
  let rpart :=
    (λ p, (if shared p.1 then p.1 ++ "_y" else p.1,
           (λ ij : nat * option nat,
              match ij.2 with Some j => p.2 !!! j | None => NaN end)
             <$> pairs)) <$> rcols in
  Ok (mkDF (length pairs) (lpart ++ rpart)).

(** ** The functions of [flight_analysis.py] *)

(** The panel [display_counts] returns: the values its four Markdown
    panes are formatted from. *)
Record summary : Type := mkSummary {
  s_airport : cell;
  s_year : cell;
  s_month : cell;
  cancelled : Z;
  diverted : Z
}.

(** One [hvplot] layer: the table it draws and the columns bound to its
    channels. *)
Record layer : Type := mkLayer {
  data : DataFrame;
  x : string;
  y : string;
  hover_cols : list string
}.

(** The overlay [bar * line]. *)
Record combo : Type := mkCombo {
  bar : layer;
  line : layer
}.

(** What [error_check] returns: the placeholder text or the bar chart. *)
Inductive element : Type :=
| Text (message : string)
| Bars (table : DataFrame) (kdims vdims : list string).

(** [d[k]] on a dict. *)
Definition dict_getitem {V : Type} (d : gmap string V) (k : string)
  : outcome V :=
  match d !! k with
  | Some v => Ok v
  | None => Raise (KeyError [k])
  end.

Section Functions.

(** Python's built-in [int] on a string. *)
Variable int_of_str : string → outcome Z.

(** numpy's default [argsort]. *)
Variable argsort : list cell → list nat.

(** [int(v)] *)
Definition py_int (v : cell) : outcome Z :=
  match v with
  | Num q => Ok (Qtrunc q)
  | Str s => int_of_str s
  | NaN => Raise ValueError
  end.

(** [int(table[c].sum())] *)
Definition int_sum (table : DataFrame) (c : string) : outcome Z :=
  col ← getitem table c; total ← nansum col; py_int total.

Definition display_counts (year airport month : cell)
    (year_col month_col airport_col cancelled_col diverted_col : string)
  : Py summary :=
  (* Filter dataset to select criteria *)
  years ← reads (λ df, getitem df year_col);
  airports ← reads (λ df, getitem df airport_col);
  months ← reads (λ df, getitem df month_col);
  let mask :=
    zip_with andb
      (zip_with andb ((λ c, cell_eqb c year) <$> years)
                     ((λ c, cell_eqb c airport) <$> airports))
      ((λ c, cell_eqb c month) <$> months) in
  filtered_df ← reads (λ df, Ok (getitem_mask df mask));
  (* Calculate totals *)
  counts ←
    (if empty filtered_df then mret (0%Z, 0%Z)
     else
       c ← lift (int_sum filtered_df cancelled_col);
       d ← lift (int_sum filtered_df diverted_col);
       mret (c, d));
  (* Return formatted display *)
  mret (mkSummary airport year month counts.1 counts.2).

Definition compute_combo_chart (entity factor : string)
    (entity_options : gmap string (string * string))
    (delay_factors : list string) : Py combo :=
  (* Extracting column names with selected entity *)
  names ← lift (dict_getitem entity_options entity);
  let name_col := names.1 in
  let code_col := names.2 in
  (* Calculating total delay *)
  delays ← reads (λ df, getitem_list df delay_factors);
  total ← lift (sum_axis1 delays);
  _ ← assign "total_delay" total;
  (* Group by entity and aggregate delays *)
  grouped ← reads (λ df,
    g ← groupby_sum df [code_col; name_col] None; reset_index g);
  sorted ← lift (sort_values argsort grouped "total_delay" false);
  let top10 := head 10 sorted in
  mret (mkCombo (mkLayer top10 code_col "total_delay" [name_col; code_col])
                (mkLayer top10 code_col factor [name_col; code_col])).

End Functions.

(** The first half of [prepare_geospatial_data]: the table [grouped] as
    it stands before the merge. *)
Definition grouped_delays (delay_cols : list string) (airport_col : string)
  : Py DataFrame :=
  (* group airports and sum delays *)
  grouped ← reads (λ df, groupby_sum df [airport_col] (Some delay_cols));
  (* Calculate avg delay *)
  avg ← lift (mean_axis1 (frame grouped));
  let grouped :=
    mkIndexed (level_names grouped) (index grouped)
              (setitem (frame grouped) "avg_delay_cause" avg) in
  (* Reset index to make airport a column *)
  lift (reset_index grouped).

Definition prepare_geospatial_data (coords_df : DataFrame)
    (delay_cols : list string) (airport_col iata_col : string)
  : Py DataFrame :=
  grouped ← grouped_delays delay_cols airport_col;
  (* Merge with coordinate data *)
  lift (merge_left grouped coords_df airport_col iata_col).

Definition no_data : element :=
  Text ("No delay data available"
        ++ String (Ascii.ascii_of_nat 10) "for this airline / airport").

(** [error_check], with the column access [data['Minutes']] made through
    [read_column], so that what the guard reads can be told from what it
    returns. *)
Definition error_check_with
    (read_column : DataFrame → string → outcome Series)
    (table : option DataFrame) : outcome element :=
  match table with
  | None => Ok no_data
  | Some d =>
      if bool_decide (nrows d = 0%nat) then Ok no_data
      else
        minutes ← read_column d "Minutes";
        total ← nansum minutes;
        if cell_eqb total (Num 0) then Ok no_data
        else Ok (Bars d ["month"; "Delay Type"] ["Minutes"])
  end.

Definition error_check : option DataFrame → outcome element :=
  error_check_with getitem.

(** ** Vocabulary of the properties *)

(** Column [c] of [df] holds at least one missing value. *)
Definition has_null (df : DataFrame) (c : string) : Prop :=
  ∃ v, v ∈ col_total df c ∧ isnull v = true.

(** The table with no column and no row, [pd.DataFrame()]. *)
Definition empty_table : DataFrame := mkDF 0 [].

(** A column access that always fails: a table without the column. *)
Definition no_column (_ : DataFrame) (c : string) : outcome Series :=
  Raise (KeyError [c]).

(** Row [i] passes the filter of [display_counts]. *)
Definition matches (df : DataFrame) (year airport month : cell)
    (year_col month_col airport_col : string) (i : nat) : bool :=
  cell_eqb (col_total df year_col !!! i) year
  && cell_eqb (col_total df airport_col !!! i) airport
  && cell_eqb (col_total df month_col !!! i) month.

Definition matching_rows (df : DataFrame) (year airport month : cell)
    (year_col month_col airport_col : string) : list nat :=
  filter (λ i, matches df year airport month year_col month_col airport_col i
               = true) (row_indices df).

(** The number in a cell, a missing value counting as 0. *)
Definition cell_value (c : cell) : Q :=
  match c with Num q => q | _ => 0%Q end.

Definition Qsum (l : list Q) : Q := foldr Qplus 0%Q l.

(** The sum of column [c] over the rows [rows]. *)
Definition column_sum (df : DataFrame) (c : string) (rows : list nat) : Q :=
  Qsum ((λ i, cell_value (col_total df c !!! i)) <$> rows).

(** Column [c] holds numbers or missing values on the rows [rows]. *)
Definition numeric_on (df : DataFrame) (c : string) (rows : list nat) : Prop :=
  Forall (λ i, is_str (col_total df c !!! i) = false) rows.

(** The table of the specification's scenario for [display_counts],
    with a third row that the filter rejects. *)
Definition jfk_table : DataFrame := mkDF 3 [
  ("year", [Num 2023; Num 2023; Num 2022]);
  ("month", [Num 1; Num 1; Num 1]);
  ("airport_name", [Str "JFK"; Str "JFK"; Str "JFK"]);
  ("arr_cancelled", [Num 5; Num 3; Num 7]);
  ("arr_diverted", [Num 2; Num 0; NaN])].

(** A stand-in for [int] on strings: no string spells a number. *)
Definition int_of_str_none (_ : string) : outcome Z := Raise ValueError.

(** The numbers among the cells of a list, in order. *)
Definition nums (l : list cell) : list Q :=
  omap (λ c, match c with Num q => Some q | _ => None end) l.

(** The sum as the code accumulates it: from the first number on, left
    to right. *)
Definition Qsuml (l : list Q) : Q :=
  match l with
  | [] => 0%Q
  | q :: l' => foldl Qplus q l'
  end.

(** The cells of column [c] on the rows of group [g]. *)
Definition group_cells (df : DataFrame) (keys : list string) (c : string)
    (g : key) : list cell :=
  (λ i, col_total df c !!! i) <$> group_rows df keys g.

(** Column [c] has nothing but numbers and missing values. *)
Definition numeric (df : DataFrame) (c : string) : Prop :=
  Forall (λ v, is_str v = false) (col_total df c).

(** The per-group total of a numeric column, as the code computes it. *)
Definition group_total (df : DataFrame) (keys : list string) (c : string)
    (g : key) : Q :=
  Qsuml (nums (group_cells df keys c g)).

(** The mean over the delay columns of the per-group totals of group [g],
    as the code computes it. *)
Definition mean_of_totals (df : DataFrame) (keys delay_cols : list string)
    (g : key) : Q :=
  Qsuml ((λ c, group_total df keys c g) <$> delay_cols)
  / inject_Z (Z.of_nat (length delay_cols)).

(** The [avg_delay_cause] cell of group [g]: missing when there is no
    delay column to average. *)
Definition mean_cell (df : DataFrame) (keys delay_cols : list string)
    (g : key) : cell :=
  match delay_cols with
  | [] => NaN
  | _ => Num (mean_of_totals df keys delay_cols g)
  end.

(** Two flights out of ATL and one out of BOS, with two delay causes. *)
Definition geo_table : DataFrame := mkDF 3 [
  ("airport", [Str "ATL"; Str "BOS"; Str "ATL"]);
  ("weather_delay", [Num 1; Num 7; Num 2]);
  ("carrier_delay", [Num 2; NaN; Num 3])].

(** Coordinates that list ATL twice and BOS not at all. *)
Definition coords_table : DataFrame := mkDF 2 [
  ("IATA Code", [Str "ATL"; Str "ATL"]);
  ("latitude", [Num 33; Num 34]);
  ("longitude", [Num (-84); Num (-85)])].

(** ** Two sorting routines that meet [argsort_spec] *)

(** Position [i] sorts before position [j]: its value is not greater,
    and of two positions with equal values the earlier one goes first. *)
Definition earlier_first_at (l : list cell) (i j : nat) : Prop :=
  cell_leb (l !!! i) (l !!! j) = true ∧
  (cell_leb (l !!! j) (l !!! i) = true → (i ≤ j)%nat).

Global Instance earlier_first_at_dec l i j : Decision (earlier_first_at l i j).
Proof. unfold earlier_first_at. apply _. Defined.

(** A stable sort of the positions. *)
Definition argsort_stable (l : list cell) : list nat :=
  merge_sort (earlier_first_at l) (seq 0 (length l)).

(** As [earlier_first_at], but of two positions with equal values the
    later one goes first. *)
Definition later_first_at (l : list cell) (i j : nat) : Prop :=
  cell_leb (l !!! i) (l !!! j) = true ∧
  (cell_leb (l !!! j) (l !!! i) = true → (j ≤ i)%nat).

Global Instance later_first_at_dec l i j : Decision (later_first_at l i j).
Proof. unfold later_first_at. apply _. Defined.

(** A sort of the positions that is not stable. *)
Definition argsort_later_first (l : list cell) : list nat :=
  merge_sort (later_first_at l) (seq 0 (length l)).

(** ** Sample tables for the ranking *)

Definition airline_options : gmap string (string * string) :=
  {[ "Airline" := ("carrier_name", "carrier") ]}.

(** Three carriers; AA and DL have the same total delay. *)
Definition carriers : DataFrame := mkDF 4 [
  ("carrier", [Str "DL"; Str "AA"; Str "UA"; Str "AA"]);
  ("carrier_name", [Str "Delta"; Str "American"; Str "United";
                    Str "American"]);
  ("weather_delay", [Num 4; Num 1; Num 9; Num 2]);
  ("carrier_delay", [Num 2; Num 3; NaN; Num 0])].

(** A table with no row. *)
Definition no_flights : DataFrame := mkDF 0 [
  ("carrier", []); ("carrier_name", []);
  ("weather_delay", []); ("carrier_delay", [])].

(** Every column of a frame has [n] values, none of them missing. *)
Definition full_columns (n : nat) (l : list (string * Series)) : Prop :=
  Forall (λ p, length p.2 = n ∧ Forall (λ c, notna c = true) p.2) l.

(** The table handed to the chart by a call that returned [out]. *)
Definition ranked (out : combo) : DataFrame := data (bar out).

(** An entity whose code column is the derived column itself. *)
Definition derived_key_options : gmap string (string * string) :=
  {[ "Airline" := ("carrier_name", "total_delay") ]}.

(** An entity neither of whose columns is in [carriers]. *)
Definition airport_options : gmap string (string * string) :=
  {[ "Airport" := ("airport_name", "airport") ]}.

(** The number of distinct keys in a list: a key counts unless an equal
    key comes later. *)
Fixpoint distinct_count (l : list key) : nat :=
  match l with
  | [] => 0
  | k :: l' =>
      if existsb (key_eqb k) l' then distinct_count l'
      else S (distinct_count l')
  end.

(** The number of distinct keys under the columns [keys], over the rows
    whose key has no missing value. *)
Definition distinct_keys (df : DataFrame) (keys : list string) : nat :=
  distinct_count (filter (λ k, key_notna k = true)
                         (row_key df keys <$> row_indices df)).

(** How many keys of [l] equal [k]. *)
Definition occurrences (k : key) (l : list key) : nat :=
  length (filter (λ y, key_eqb k y = true) l).

(** ** Further vocabulary *)

(** The number of missing values in column [c]. *)
Definition null_count (df : DataFrame) (c : string) : nat :=
  length (filter (λ v, isnull v = true) (col_total df c)).

(** The report of a validation, when it returns one. *)
Definition report_of (R : list string) (df : DataFrame) : option report :=
  match (validate_data R df).1 with
  | Ok rep => Some rep
  | Raise _ => None
  end.

(** [b] is a number, and not above the number [a]. *)
Definition num_ge (a b : cell) : Prop :=
  match a, b with
  | Num p, Num q => (q <= p)%Q
  | _, _ => False
  end.

(** Eleven carriers, one flight each. *)
Definition eleven_carriers : DataFrame := mkDF 11 [
  ("carrier", Str <$> ["AA"; "AS"; "B6"; "DL"; "F9"; "G4"; "HA"; "NK";
                       "OO"; "UA"; "WN"]);
  ("carrier_name", Str <$> ["American"; "Alaska"; "JetBlue"; "Delta";
                            "Frontier"; "Allegiant"; "Hawaiian"; "Spirit";
                            "SkyWest"; "United"; "Southwest"]);
  ("weather_delay", Num <$> [7; 3; 9; 12; 1; 4; 2; 8; 6; 11; 10]%Q)].

(** * Properties *)

(** ** Lists and dictionaries *)

Lemma filter_nil_iff {A : Type} (P : A → Prop) `{∀ x, Decision (P x)}
    (l : list A) :
  filter P l = [] ↔ ∀ x, x ∈ l → ¬ P x.
Proof.
  split.
  - intros Hnil x Hx HP. by eapply filter_nil_not_elem_of.
  - intros Hno. induction l as [|a l IH]; [done|].
    rewrite filter_cons_False by (apply Hno; left).
    apply IH. intros x Hx. apply Hno. by right.
Qed.

Lemma filter_nonnil_iff {A : Type} (P : A → Prop) `{∀ x, Decision (P x)}
    (l : list A) :
  filter P l ≠ [] ↔ ∃ x, x ∈ l ∧ P x.
Proof.
  split.
  - destruct (filter P l) as [|x l'] eqn:E; [done|]. intros _.
    exists x. assert (x ∈ filter P l) as Hin by (rewrite E; left).
    apply list_elem_of_filter in Hin. tauto.
  - intros (x & Hx & HP) Hnil. by eapply filter_nil_not_elem_of.
Qed.

Lemma filter_absent_nil (df : DataFrame) (cs : list string) :
  Forall (λ c, c ∈ columns df) cs → filter (λ c, c ∉ columns df) cs = [].
Proof.
  intros Hall. apply filter_nil_iff. intros c Hc Hnot.
  rewrite Forall_forall in Hall. by apply Hnot, Hall.
Qed.

Lemma to_dict_snoc (l : list (string * nat)) (p : string * nat) :
  to_dict (l ++ [p]) = <[p.1 := p.2]> (to_dict l).
Proof. unfold to_dict. by rewrite foldl_app. Qed.

Lemma to_dict_empty_iff (l : list (string * nat)) : to_dict l = ∅ ↔ l = [].
Proof.
  split; [|by intros ->].
  destruct l as [|p l _] using rev_ind; [done|].
  rewrite to_dict_snoc. intros Hins. by apply insert_non_empty in Hins.
Qed.

Lemma count_null_pos (s : Series) :
  (0 < length (filter (λ c, isnull c = true) s))%nat ↔
  ∃ v, v ∈ s ∧ isnull v = true.
Proof.
  split.
  - intros Hpos. destruct (filter _ s) as [|v l] eqn:E; [simpl in Hpos; lia|].
    exists v. assert (v ∈ filter (λ c, isnull c = true) s) as Hin
      by (rewrite E; left).
    apply list_elem_of_filter in Hin. tauto.
  - intros (v & Hv & Hn).
    assert (v ∈ filter (λ c, isnull c = true) s) as Hin
      by by apply list_elem_of_filter.
    destruct (filter _ s); [by apply not_elem_of_nil in Hin|simpl; lia].
Qed.

(** ** Selecting columns *)

Lemma getitem_list_present (df : DataFrame) (cs : list string) :
  Forall (λ c, c ∈ columns df) cs →
  getitem_list df cs
  = Ok (mkDF (nrows df) ((λ c, (c, col_total df c)) <$> cs)).
Proof. intros Hall. unfold getitem_list. by rewrite filter_absent_nil. Qed.

Lemma col_lookup_is_Some (c : string) (l : list (string * Series)) :
  is_Some (col_lookup c l) ↔ c ∈ l.*1.
Proof.
  induction l as [|[c' s] l IH]; simpl.
  - split; [by intros [? ?]|by intros ?%not_elem_of_nil].
  - case_decide as Hc; subst.
    + split; [left|by eexists].
    + rewrite IH. split; [by right|]. by intros [?|?]%elem_of_cons.
Qed.

Lemma col_lookup_None (c : string) (l : list (string * Series)) :
  col_lookup c l = None ↔ c ∉ l.*1.
Proof.
  rewrite <- col_lookup_is_Some, eq_None_not_Some. done.
Qed.

Lemma getitem_present (df : DataFrame) (c : string) :
  c ∈ columns df → getitem df c = Ok (col_total df c).
Proof.
  intros Hc. apply col_lookup_is_Some in Hc as [s Hs].
  unfold getitem, col_total. by rewrite Hs.
Qed.

Lemma getitem_absent (df : DataFrame) (c : string) :
  c ∉ columns df → getitem df c = Raise (KeyError [c]).
Proof.
  intros Hc. apply col_lookup_None in Hc. unfold getitem. by rewrite Hc.
Qed.

(** ** [validate_data] *)

(** The report [validate_data] builds, and the table it leaves. *)
Lemma validate_data_run (R : list string) (df : DataFrame) :
  let missing := filter (λ c, c ∉ columns df) R in
  let nulls :=
    filter (λ p : string * nat, (0 < p.2)%nat)
      (isnull_sum (mkDF (nrows df)
         ((λ c, (c, col_total df c)) <$> filter (λ c, c ∈ columns df) R))) in
  validate_data R df
  = (Ok (mkReport missing (to_dict nulls)
           (bool_decide (missing = []) && bool_decide (nulls = []))), df).
Proof.
  intros missing nulls.
  unfold validate_data, mbind, Py_bind, reads, mret, Py_ret. simpl.
  rewrite getitem_list_present.
  2:{ apply Forall_forall. intros c Hc.
      by apply list_elem_of_filter in Hc as [? _]. }
  simpl. fold missing. fold nulls.
  assert (to_dict nulls = ∅ ↔ nulls = []) as Hd
    by apply to_dict_empty_iff.
  destruct missing as [|c mc'];
    repeat case_bool_decide; simpl; try done; tauto.
Qed.

Lemma nulls_nonnil_iff (df : DataFrame) (R : list string) :
  filter (λ p : string * nat, (0 < p.2)%nat)
    (isnull_sum (mkDF (nrows df)
       ((λ c, (c, col_total df c)) <$> filter (λ c, c ∈ columns df) R))) ≠ []
  ↔ ∃ c, c ∈ R ∧ c ∈ columns df ∧ has_null df c.
Proof.
  unfold isnull_sum, has_null. simpl. rewrite <- list_fmap_compose.
  rewrite filter_nonnil_iff. split.
  - intros (p & Hp & Hpos).
    apply list_elem_of_fmap in Hp as (c & -> & Hc).
    apply list_elem_of_filter in Hc as [Hc HR].
    exists c. repeat split; [done..|]. by apply count_null_pos.
  - intros (c & HR & Hc & Hv). apply count_null_pos in Hv.
    exists (c, length (filter (λ v, isnull v = true) (col_total df c))).
    split; [|done].
    apply list_elem_of_fmap. exists c. split; [done|].
    by apply list_elem_of_filter.
Qed.

(** C2: [validate_data] reports [is_valid = false] exactly when a
    required column is absent from the table or a required column that
    is present holds a missing value; and [is_valid] is true exactly when
    [missing_columns] and [missing_values] are both empty.  The call
    returns a report for every table and every required-column list. *)
Theorem validate_data_is_valid (R : list string) (df : DataFrame) :
  ∃ rep, validate_data R df = (Ok rep, df) ∧
    (is_valid rep = false ↔
       (∃ c, c ∈ R ∧ c ∉ columns df) ∨
       (∃ c, c ∈ R ∧ c ∈ columns df ∧ has_null df c)) ∧
    (is_valid rep = true ↔
       missing_columns rep = [] ∧ missing_values rep = ∅).
Proof.
  eexists. split; [apply validate_data_run|]. simpl.
  rewrite to_dict_empty_iff.
  split.
  - rewrite andb_false_iff, !bool_decide_eq_false.
    by rewrite filter_nonnil_iff, nulls_nonnil_iff.
  - by rewrite andb_true_iff, !bool_decide_eq_true.
Qed.

(** C9, as amended: [validate_data] never raises and leaves the table as
    it was; for a table without columns every required column is listed
    in [missing_columns], and [is_valid] is false as soon as one column
    is required. *)
Theorem validate_data_total (R : list string) (df : DataFrame) :
  ∃ rep, validate_data R df = (Ok rep, df) ∧
    (columns df = [] →
       missing_columns rep = R ∧ (R ≠ [] → is_valid rep = false)).
Proof.
  eexists. split; [apply validate_data_run|]. simpl. intros Hcols.
  assert (filter (λ c, c ∉ columns df) R = R) as ->.
  { rewrite Hcols. induction R as [|c R IH]; [done|].
    rewrite filter_cons_True by apply not_elem_of_nil. by rewrite IH. }
  split; [done|]. intros HR.
  by rewrite bool_decide_eq_false_2.
Qed.

Lemma validate_data_total_witness :
  ∃ rep, validate_data ["year"; "month"] empty_table = (Ok rep, empty_table) ∧
    missing_columns rep = ["year"; "month"] ∧ is_valid rep = false.
Proof.
  destruct (validate_data_total ["year"; "month"] empty_table)
    as (rep & Hrun & Hempty).
  exists rep. split; [exact Hrun|].
  destruct (Hempty eq_refl) as [Hm Hv]. split; [exact Hm|].
  apply Hv. discriminate.
Defined.

(** C9, as stated, fails when nothing is required: the report for the
    empty table and the empty requirement is valid. *)
Lemma validate_data_empty_requirement :
  validate_data [] empty_table = (Ok (mkReport [] ∅ true), empty_table) ∧
  ¬ (∀ (R : list string) rep,
       validate_data R empty_table = (Ok rep, empty_table) →
       is_valid rep = false).
Proof.
  split; [reflexivity|].
  intros Hall. specialize (Hall [] (mkReport [] ∅ true) eq_refl). discriminate.
Qed.

(** ** [error_check] *)

(** C10: for [None] and for a table of length zero the guard returns
    the placeholder whatever reading a column would do, so also when
    there is no 'Minutes' column; a table with rows is asked for its
    'Minutes' column, whose absence then surfaces as the [KeyError], and
    only such a table reaches the zero-sum test. *)
Theorem error_check_short_circuit :
  (∀ read_column table,
     table = None ∨ (∃ d, table = Some d ∧ nrows d = 0%nat) →
     error_check_with read_column table = Ok no_data) ∧
  (∀ table,
     table = None ∨ (∃ d, table = Some d ∧ nrows d = 0%nat) →
     error_check table = Ok no_data) ∧
  (∀ read_column d e,
     nrows d ≠ 0%nat → read_column d "Minutes" = Raise e →
     error_check_with read_column (Some d) = Raise e) ∧
  (∀ d, nrows d ≠ 0%nat → "Minutes" ∉ columns d →
     error_check (Some d) = Raise (KeyError ["Minutes"])) ∧
  (∀ d minutes total,
     nrows d ≠ 0%nat → getitem d "Minutes" = Ok minutes →
     nansum minutes = Ok total → cell_eqb total (Num 0) = true →
     error_check (Some d) = Ok no_data).
Proof.
  assert (∀ read_column table,
     table = None ∨ (∃ d, table = Some d ∧ nrows d = 0%nat) →
     error_check_with read_column table = Ok no_data) as Hshort.
  { intros rc table [->|(d & -> & Hlen)]; [done|].
    unfold error_check_with. by rewrite bool_decide_eq_true_2. }
  assert (∀ read_column d e,
     nrows d ≠ 0%nat → read_column d "Minutes" = Raise e →
     error_check_with read_column (Some d) = Raise e) as Hread.
  { intros rc d e Hlen Hrc. unfold error_check_with.
    rewrite bool_decide_eq_false_2 by done. by rewrite Hrc. }
  repeat split.
  - exact Hshort.
  - intros table. apply Hshort.
  - exact Hread.
  - intros d Hlen Hcol. apply Hread; [done|]. by apply getitem_absent.
  - intros d minutes total Hlen Hget Hsum Hzero.
    unfold error_check, error_check_with.
    rewrite bool_decide_eq_false_2 by done.
    rewrite Hget. simpl. rewrite Hsum. simpl. by rewrite Hzero.
Qed.

Lemma error_check_short_circuit_witness :
  error_check_with no_column None = Ok no_data ∧
  error_check (Some (mkDF 0 [("month", [])])) = Ok no_data ∧
  error_check (Some (mkDF 1 [("month", [Num 1])]))
  = Raise (KeyError ["Minutes"]) ∧
  error_check (Some (mkDF 2 [("Minutes", [Num 0; NaN])])) = Ok no_data.
Proof.
  destruct error_check_short_circuit as (H1 & H2 & _ & H4 & H5).
  split; [apply H1; by left|].
  split; [apply H2; right; by eexists|].
  split.
  - apply H4; [discriminate|]. vm_compute.
    intros Hin. apply list_elem_of_In in Hin. simpl in Hin.
    destruct Hin as [Heq|[]]. discriminate.
  - apply (H5 _ [Num 0; NaN] (Num (0 + 0))); [discriminate|reflexivity..].
Defined.
(** ** Boolean masks *)

Lemma filter_ext_elem {A : Type} (P Q : A → Prop)
    `{∀ x, Decision (P x), ∀ x, Decision (Q x)} (l : list A) :
  (∀ x, x ∈ l → P x ↔ Q x) → filter P l = filter Q l.
Proof.
  induction l as [|a l IH]; intros Hext; [done|].
  rewrite !filter_cons.
  rewrite IH by (intros x Hx; apply Hext; by right).
  destruct (decide (P a)) as [HP|HP], (decide (Q a)) as [HQ|HQ]; try done;
    exfalso; apply (Hext a) in HP || apply (Hext a) in HQ; try done; left.
Qed.

Lemma filter_fmap {A B : Type} (f : A → B) (P : B → Prop)
    `{∀ x, Decision (P x)} (l : list A) :
  filter P (f <$> l) = f <$> filter (λ a, P (f a)) l.
Proof.
  induction l as [|a l IH]; [done|].
  rewrite fmap_cons, !filter_cons, IH. by destruct (decide (P (f a))).
Qed.

Lemma select_spec {A : Type} `{Inhabited A} (mask : list bool) (s : list A) :
  length mask = length s →
  select mask s
  = (λ i, s !!! i) <$> filter (λ i, mask !!! i = true) (seq 0 (length s)).
Proof.
  revert s. induction mask as [|b mask IH]; intros [|a s] Hlen;
    simplify_eq/=; [done|].
  rewrite (IH s) by done.
  rewrite <- fmap_S_seq, filter_cons, filter_fmap.
  destruct b; simpl; rewrite <- list_fmap_compose; done.
Qed.

Lemma lookup_total_fmap_cell {B : Type} `{Inhabited B} (f : cell → B)
    (l : list cell) (i : nat) :
  (i < length l)%nat → (f <$> l) !!! i = f (l !!! i).
Proof. apply list_lookup_total_fmap. Qed.

Lemma lookup_total_zip_andb (l k : list bool) (i : nat) :
  (i < length l)%nat → (i < length k)%nat →
  zip_with andb l k !!! i = l !!! i && k !!! i.
Proof.
  intros Hl Hk. apply list_lookup_total_correct.
  rewrite lookup_zip_with.
  rewrite (list_lookup_lookup_total_lt l i) by done.
  rewrite (list_lookup_lookup_total_lt k i) by done. done.
Qed.

Lemma length_select_count {A : Type} (mask : list bool) (s : list A) :
  length mask = length s → length (select mask s) = count_true mask.
Proof.
  unfold count_true. revert s.
  induction mask as [|b mask IH]; intros [|a s] Hlen; simplify_eq/=; [done|].
  rewrite filter_cons. destruct b; simpl; by rewrite IH.
Qed.

Lemma col_lookup_fmap (f : Series → Series) (c : string)
    (l : list (string * Series)) :
  col_lookup c ((λ p, (p.1, f p.2)) <$> l) = f <$> col_lookup c l.
Proof.
  induction l as [|[c' s] l IH]; [done|]. simpl.
  by case_decide.
Qed.

Lemma wf_col_length (df : DataFrame) (c : string) :
  wf_df df → c ∈ columns df → length (col_total df c) = nrows df.
Proof.
  intros [_ Hlen] Hc. unfold col_total, columns in *.
  induction (cols df) as [|[c' s] l IH]; [by apply not_elem_of_nil in Hc|].
  apply Forall_cons in Hlen as [Hs Hl]. simpl in *.
  case_decide; [done|]. apply IH; [done|].
  apply elem_of_cons in Hc as [?|?]; done.
Qed.

(** ** Sums of numbers *)

Lemma Qtrunc_comp (p q : Q) : (p == q)%Q → Qtrunc p = Qtrunc q.
Proof.
  intros Heq. unfold Qtrunc. rewrite Heq at 1.
  destruct (Qle_bool 0 q).
  - by apply Qfloor_comp.
  - by apply Qceiling_comp.
Qed.

Lemma add_all_numeric (q : Q) (l : list cell) :
  Forall (λ c, is_num c = true) l →
  ∃ r, add_all (Num q) l = Ok (Num r) ∧ (r == q + Qsum (cell_value <$> l))%Q.
Proof.
  revert q. induction l as [|c l IH]; intros q Hnum; simpl.
  - exists q. split; [done|]. change (q == q + 0)%Q. by rewrite Qplus_0_r.
  - apply Forall_cons in Hnum as [Hc Hl]. destruct c as [p| |]; try done.
    destruct (IH (q + p)%Q Hl) as (r & Hr & Heq).
    exists r. split; [done|]. rewrite Heq.
    change (q + p + Qsum (cell_value <$> l) ==
            q + (p + Qsum (cell_value <$> l)))%Q.
    by rewrite Qplus_assoc.
Qed.

Lemma nansum_numeric (l : list cell) :
  Forall (λ c, is_str c = false) l →
  ∃ r, nansum l = Ok (Num r) ∧ (r == Qsum (cell_value <$> l))%Q.
Proof.
  intros Hnum. unfold nansum, reduce_add.
  destruct l as [|c l]; simpl.
  - by exists 0%Q.
  - apply Forall_cons in Hnum as [Hc Hl].
    destruct (add_all_numeric (cell_value c) (fillna0 <$> l)) as (r & Hr & Heq).
    { apply Forall_fmap. eapply Forall_impl; [exact Hl|].
      by intros [| |]. }
    exists r. split.
    + by destruct c.
    + rewrite Heq. rewrite <- list_fmap_compose.
      apply Qplus_comp; [done|].
      clear. induction l as [|[| |] l IH]; simpl; try done; by rewrite IH.
Qed.

(** ** [display_counts] *)

Section display_counts.

Context (int_of_str : string → outcome Z).
Context (df : DataFrame) (year airport month : cell).
Context (year_col month_col airport_col : string).
Context (cancelled_col diverted_col : string).

Let rows : list nat :=
  matching_rows df year airport month year_col month_col airport_col.

Let mask : list bool :=
  zip_with andb
    (zip_with andb ((λ c, cell_eqb c year) <$> col_total df year_col)
                   ((λ c, cell_eqb c airport) <$> col_total df airport_col))
    ((λ c, cell_eqb c month) <$> col_total df month_col).

Hypothesis Hwf : wf_df df.
Hypothesis Hyear : year_col ∈ columns df.
Hypothesis Hairport : airport_col ∈ columns df.
Hypothesis Hmonth : month_col ∈ columns df.

Lemma mask_length : length mask = nrows df.
Proof.
  unfold mask. rewrite !length_zip_with, !length_fmap.
  rewrite !wf_col_length by done. lia.
Qed.

Lemma mask_lookup (i : nat) :
  (i < nrows df)%nat →
  mask !!! i
  = matches df year airport month year_col month_col airport_col i.
Proof.
  intros Hi. unfold mask, matches.
  rewrite !lookup_total_zip_andb, !lookup_total_fmap_cell;
    rewrite ?length_zip_with, ?length_fmap, ?wf_col_length by done;
    (done || lia).
Qed.

Lemma mask_select (s : Series) :
  length s = nrows df → select mask s = (λ i, s !!! i) <$> rows.
Proof.
  intros Hs. rewrite (select_spec mask s) by (by rewrite mask_length).
  f_equal. rewrite Hs. apply filter_ext_elem.
  intros i Hi. apply elem_of_seq in Hi. rewrite mask_lookup by lia. done.
Qed.

Lemma filtered_empty :
  empty (getitem_mask df mask) = bool_decide (rows = []).
Proof.
  unfold empty, getitem_mask. simpl.
  rewrite (bool_decide_eq_false_2 (_ <$> _ = [])).
  2:{ destruct (cols df) eqn:E; [|done].
      unfold columns in Hyear. rewrite E in Hyear.
      by apply not_elem_of_nil in Hyear. }
  rewrite orb_false_r. apply bool_decide_ext.
  rewrite take_ge by (rewrite mask_length; lia).
  rewrite <- (length_select_count mask (col_total df year_col))
    by (by rewrite mask_length, wf_col_length).
  rewrite mask_select by (by apply wf_col_length).
  rewrite length_fmap. by destruct rows.
Qed.

Lemma filtered_total (c : string) :
  c ∈ columns df → numeric_on df c rows →
  ∃ q, int_sum int_of_str (getitem_mask df mask) c = Ok (Qtrunc q) ∧
       (q == column_sum df c rows)%Q.
Proof.
  intros Hc Hnum. unfold int_sum, getitem, getitem_mask. simpl.
  rewrite col_lookup_fmap.
  apply col_lookup_is_Some in Hc as Hs. destruct Hs as [s Hs].
  assert (col_total df c = s) as Hcol by (unfold col_total; by rewrite Hs).
  rewrite Hs. simpl.
  rewrite mask_select by (rewrite <- Hcol; by apply wf_col_length).
  destruct (nansum_numeric ((λ i, s !!! i) <$> rows)) as (q & Hq & Heq).
  { apply Forall_fmap. unfold numeric_on in Hnum. by rewrite Hcol in Hnum. }
  exists q. rewrite Hq. simpl. split; [done|].
  rewrite Heq. unfold column_sum. by rewrite <- list_fmap_compose, Hcol.
Qed.

Lemma display_counts_no_match :
  rows = [] →
  display_counts int_of_str year airport month
    year_col month_col airport_col cancelled_col diverted_col df
  = (Ok (mkSummary airport year month 0 0), df).
Proof.
  intros Hrows.
  unfold display_counts, mbind, Py_bind, reads, lift, mret, Py_ret.
  rewrite !getitem_present by done. fold mask.
  rewrite filtered_empty, bool_decide_eq_true_2 by done. done.
Qed.

Lemma display_counts_match :
  rows ≠ [] →
  cancelled_col ∈ columns df → diverted_col ∈ columns df →
  numeric_on df cancelled_col rows → numeric_on df diverted_col rows →
  display_counts int_of_str year airport month
    year_col month_col airport_col cancelled_col diverted_col df
  = (Ok (mkSummary airport year month
           (Qtrunc (column_sum df cancelled_col rows))
           (Qtrunc (column_sum df diverted_col rows))), df).
Proof.
  intros Hrows Hc Hd Hcn Hdn.
  unfold display_counts, mbind, Py_bind, reads, lift, mret, Py_ret.
  rewrite !getitem_present by done. fold mask.
  rewrite filtered_empty, bool_decide_eq_false_2 by done.
  destruct (filtered_total cancelled_col Hc Hcn) as (qc & -> & Hqc).
  destruct (filtered_total diverted_col Hd Hdn) as (qd & -> & Hqd).
  simpl. by rewrite (Qtrunc_comp _ _ Hqc), (Qtrunc_comp _ _ Hqd).
Qed.

End display_counts.

Ltac by_compute :=
  unfold wf_df, numeric_on, numeric;
  apply (bool_decide_unpack _); vm_compute; exact I.



(** ** Traversals *)

Lemma traverse_fmap_ok {A B : Type} (f : A → outcome B) (g : A → B)
    (l : list A) :
  (∀ a, a ∈ l → f a = Ok (g a)) → traverse f l = Ok (g <$> l).
Proof.
  induction l as [|a l IH]; intros Hf; [done|]. simpl.
  rewrite Hf by left. simpl. rewrite IH; [done|].
  intros a' Ha'. apply Hf. by right.
Qed.

Lemma traverse_Ok_length {A B : Type} (f : A → outcome B) (l : list A)
    (bs : list B) :
  traverse f l = Ok bs → length bs = length l.
Proof.
  revert bs. induction l as [|a l IH]; intros bs; simpl.
  - by intros [= <-].
  - destruct (f a) as [b|]; [|done]. simpl.
    destruct (traverse f l) as [bs'|]; [|done]. simpl.
    intros [= <-]. simpl. f_equal. by apply IH.
Qed.

(** ** Sums over groups *)

Lemma Qsuml_Qsum (l : list Q) : (Qsuml l == Qsum l)%Q.
Proof.
  destruct l as [|q l]; [done|]. simpl.
  revert q. induction l as [|p l IH]; intros q; simpl.
  - change (q == q + 0)%Q. by rewrite Qplus_0_r.
  - rewrite IH. change (q + p + Qsum l == q + (p + Qsum l))%Q.
    by rewrite Qplus_assoc.
Qed.

Lemma Qsum_nums (l : list cell) :
  (Qsum (nums l) == Qsum (cell_value <$> l))%Q.
Proof.
  induction l as [|[q| |] l IH]; [done|..].
  - change (q + Qsum (nums l) == q + Qsum (cell_value <$> l))%Q.
    by rewrite IH.
  - change (Qsum (nums l) == 0 + Qsum (cell_value <$> l))%Q.
    by rewrite IH, Qplus_0_l.
  - change (Qsum (nums l) == 0 + Qsum (cell_value <$> l))%Q.
    by rewrite IH, Qplus_0_l.
Qed.

Lemma add_all_nums (q : Q) (l : list Q) :
  add_all (Num q) (Num <$> l) = Ok (Num (foldl Qplus q l)).
Proof. revert q. induction l as [|p l IH]; intros q; simpl; [done|apply IH]. Qed.

Lemma reduce_add_nums (l : list Q) :
  reduce_add (Num <$> l) = Ok (Num (Qsuml l)).
Proof. destruct l as [|q l]; [done|]. apply add_all_nums. Qed.

Lemma filter_notna_nums (l : list cell) :
  Forall (λ v, is_str v = false) l →
  filter (λ c, notna c = true) l = Num <$> nums l.
Proof.
  induction 1 as [|[q| |] l Hc _ IH]; [done| |done|].
  - rewrite filter_cons_True by done. by rewrite IH.
  - rewrite filter_cons_False by done. by rewrite IH.
Qed.

Lemma group_sum_numeric (l : list cell) :
  Forall (λ v, is_str v = false) l →
  group_sum l = Ok (Num (Qsuml (nums l))).
Proof.
  intros Hnum. unfold group_sum.
  by rewrite filter_notna_nums, reduce_add_nums.
Qed.

Lemma group_sum_notna (l : list cell) (v : cell) :
  group_sum l = Ok v → notna v = true.
Proof.
  unfold group_sum, reduce_add.
  assert (Forall (λ c, notna c = true) (filter (λ c, notna c = true) l)) as Hall.
  { apply Forall_forall. intros c Hc. by apply list_elem_of_filter in Hc as [? _]. }
  destruct (filter _ l) as [|c l']; [by intros [= <-]|].
  apply Forall_cons in Hall as [Hc Hl']. clear Hl'.
  revert c Hc. induction l' as [|c' l' IH]; intros c Hc; simpl.
  - by intros [= <-].
  - destruct c as [p| |], c' as [p'| |]; simpl; try done; by apply IH.
Qed.

Lemma nanmean_nums (l : list Q) :
  nanmean (Num <$> l)
  = Ok (match l with
        | [] => NaN
        | _ => Num (Qsuml l / inject_Z (Z.of_nat (length l)))
        end).
Proof.
  unfold nanmean.
  assert (filter (λ c, notna c = true) (Num <$> l) = Num <$> l) as ->.
  { induction l as [|q l IH]; [done|].
    rewrite fmap_cons, filter_cons_True by done. by rewrite IH. }
  destruct l as [|q l]; [done|].
  rewrite fmap_cons, <- (fmap_cons Num), reduce_add_nums. simpl.
  by rewrite length_fmap.
Qed.

(** ** [groupby(...).sum()] on numeric columns *)

Lemma numeric_lookup (df : DataFrame) (c : string) (i : nat) :
  numeric df c → is_str (col_total df c !!! i) = false.
Proof.
  intros Hnum. rewrite list_lookup_total_alt.
  destruct (col_total df c !! i) as [v|] eqn:Hv; [|done]. simpl.
  unfold numeric in Hnum. rewrite Forall_forall in Hnum.
  apply Hnum. by eapply list_elem_of_lookup_2.
Qed.

Lemma numeric_group_cells (df : DataFrame) (keys : list string) (c : string)
    (g : key) :
  numeric df c → Forall (λ v, is_str v = false) (group_cells df keys c g).
Proof.
  intros Hnum. unfold group_cells. apply Forall_fmap, Forall_forall.
  intros i _. by apply numeric_lookup.
Qed.

Lemma group_total_sum (df : DataFrame) (keys : list string) (c : string)
    (g : key) :
  (group_total df keys c g == column_sum df c (group_rows df keys g))%Q.
Proof.
  unfold group_total, column_sum, group_cells.
  by rewrite Qsuml_Qsum, Qsum_nums, <- list_fmap_compose.
Qed.

Lemma groupby_sum_selected (df : DataFrame) (keys cs : list string) :
  Forall (λ c, c ∈ columns df) keys →
  Forall (λ c, c ∈ columns df) cs →
  Forall (numeric df) cs →
  groupby_sum df keys (Some cs)
  = Ok (mkIndexed keys (group_keys df keys)
          (mkDF (length (group_keys df keys))
             ((λ c, (c, (λ g, Num (group_total df keys c g))
                          <$> group_keys df keys)) <$> cs))).
Proof.
  intros Hkeys Hcs Hnum. unfold groupby_sum.
  rewrite !filter_absent_nil by done. simpl.
  rewrite (traverse_fmap_ok _
    (λ c, (c, (λ g, Num (group_total df keys c g)) <$> group_keys df keys)));
    [done|].
  intros c Hc.
  rewrite (traverse_fmap_ok _ (λ g, Num (group_total df keys c g))); [done|].
  intros g _. apply group_sum_numeric, numeric_group_cells.
  rewrite Forall_forall in Hnum. by apply Hnum.
Qed.

(** ** Writing a column *)

Lemma col_lookup_update_eq (c : string) (s : Series)
    (l : list (string * Series)) :
  col_lookup c (col_update c s l) = Some s.
Proof.
  induction l as [|[c' s'] l IH]; simpl.
  - by rewrite decide_True.
  - case_decide; simpl; [by rewrite decide_True|by rewrite decide_False].
Qed.

Lemma col_lookup_update_ne (c c' : string) (s : Series)
    (l : list (string * Series)) :
  c ≠ c' → col_lookup c (col_update c' s l) = col_lookup c l.
Proof.
  intros Hne. induction l as [|[c'' s''] l IH]; simpl.
  - by rewrite decide_False.
  - destruct (decide (c' = c'')) as [->|Hc]; simpl.
    + by rewrite !decide_False.
    + case_decide; [done|apply IH].
Qed.

Lemma columns_update (c c' : string) (s : Series)
    (l : list (string * Series)) :
  c ∈ (col_update c' s l).*1 ↔ c = c' ∨ c ∈ l.*1.
Proof.
  rewrite <- !col_lookup_is_Some.
  destruct (decide (c = c')) as [->|Hne].
  - rewrite col_lookup_update_eq. split; [by left|by eexists].
  - rewrite col_lookup_update_ne by done. split; [by right|].
    by intros [?|?].
Qed.

(** ** Counting groups *)

Lemma insert_key_Permutation (k : key) (l : list key) :
  insert_key k l ≡ₚ k :: l.
Proof.
  induction l as [|k' l IH]; simpl; [done|].
  destruct (key_leb k k'); [done|]. rewrite IH. apply Permutation_swap.
Qed.

Lemma sort_keys_Permutation (l : list key) : sort_keys l ≡ₚ l.
Proof.
  induction l as [|k l IH]; simpl; [done|].
  by rewrite insert_key_Permutation, IH.
Qed.

Lemma cell_eqb_sym (a b : cell) : cell_eqb a b = cell_eqb b a.
Proof.
  destruct a as [p|s|], b as [q|t|]; simpl; try done.
  - apply Qeq_bool_comm.
  - apply bool_decide_ext. naive_solver.
Qed.

Lemma cell_eqb_trans (a b c : cell) :
  cell_eqb a b = true → cell_eqb b c = true → cell_eqb a c = true.
Proof.
  destruct a as [p|s|], b as [q|t|], c as [r|u|]; simpl; try done.
  - apply Qeq_bool_trans.
  - rewrite !bool_decide_eq_true. congruence.
Qed.

Lemma key_eqb_sym (k1 k2 : key) : key_eqb k1 k2 = key_eqb k2 k1.
Proof.
  revert k2. induction k1 as [|a k1 IH]; intros [|b k2]; simpl; try done.
  by rewrite cell_eqb_sym, IH.
Qed.

Lemma key_eqb_trans (k1 k2 k3 : key) :
  key_eqb k1 k2 = true → key_eqb k2 k3 = true → key_eqb k1 k3 = true.
Proof.
  revert k2 k3. induction k1 as [|a k1 IH]; intros [|b k2] [|c k3]; simpl;
    try done.
  rewrite !andb_true_iff. intros [Hab H12] [Hbc H23]. split.
  - by eapply cell_eqb_trans.
  - by eapply IH.
Qed.

Lemma occurrences_complement (k : key) (l : list key) :
  (length (filter (λ y, key_eqb k y = false) l) + occurrences k l
   = length l)%nat.
Proof.
  unfold occurrences. induction l as [|y l IH]; [done|].
  rewrite !filter_cons. destruct (key_eqb k y); simpl; lia.
Qed.

Lemma occurrences_filter_same (a k : key) (l : list key) :
  key_eqb k a = true →
  occurrences k (filter (λ y, key_eqb a y = false) l) = 0%nat.
Proof.
  intros Hka. unfold occurrences.
  rewrite (proj2 (filter_nil_iff _ _)); [done|].
  intros y Hy Hky. apply list_elem_of_filter in Hy as [Hay _].
  rewrite key_eqb_sym in Hka.
  by rewrite (key_eqb_trans a k y Hka Hky) in Hay.
Qed.

Lemma occurrences_filter_other (a k : key) (l : list key) :
  key_eqb k a = false →
  occurrences k (filter (λ y, key_eqb a y = false) l) = occurrences k l.
Proof.
  intros Hka. unfold occurrences. rewrite list_filter_filter.
  f_equal. apply filter_ext_elem. intros y _. split; [tauto|].
  intros Hky. split; [done|].
  destruct (key_eqb a y) eqn:Hay; [|done].
  rewrite key_eqb_sym in Hay.
  by rewrite (key_eqb_trans k y a Hky Hay) in Hka.
Qed.

Lemma occurrences_cons (k a : key) (l : list key) :
  occurrences k (a :: l)
  = ((if key_eqb k a then 1 else 0) + occurrences k l)%nat.
Proof.
  unfold occurrences. rewrite filter_cons. by destruct (key_eqb k a).
Qed.

Lemma occurrences_uniq (k : key) (l : list key) :
  occurrences k (uniq l) = if existsb (key_eqb k) l then 1%nat else 0%nat.
Proof.
  induction l as [|a l IH]; [done|]. simpl. rewrite occurrences_cons.
  destruct (key_eqb k a) eqn:Hka; simpl.
  - by rewrite occurrences_filter_same.
  - by rewrite occurrences_filter_other.
Qed.

Lemma length_uniq (l : list key) : length (uniq l) = distinct_count l.
Proof.
  induction l as [|k l IH]; [done|]. simpl.
  pose proof (occurrences_complement k (uniq l)) as Hsplit.
  rewrite occurrences_uniq in Hsplit. rewrite <- IH.
  destruct (existsb (key_eqb k) l); lia.
Qed.

Lemma length_sort_keys (l : list key) : length (sort_keys l) = length l.
Proof. by rewrite sort_keys_Permutation. Qed.

(** There are as many groups as distinct keys. *)
Lemma length_group_keys (df : DataFrame) (keys : list string) :
  length (group_keys df keys) = distinct_keys df keys.
Proof.
  unfold group_keys, distinct_keys. by rewrite length_sort_keys, length_uniq.
Qed.

(** ** [prepare_geospatial_data]: the grouped table *)

Section grouped_delays.

Context (df : DataFrame) (delay_cols : list string) (airport_col : string).

Hypothesis Hairport : airport_col ∈ columns df.
Hypothesis Hdelays : Forall (λ c, c ∈ columns df) delay_cols.
Hypothesis Hnumeric : Forall (numeric df) delay_cols.
Hypothesis Hfresh : airport_col ∉ delay_cols.
Hypothesis Hname : airport_col ≠ "avg_delay_cause".

Let groups : list key := group_keys df [airport_col].

Let sums : list (string * Series) :=
  (λ c, (c, (λ g, Num (group_total df [airport_col] c g)) <$> groups))
    <$> delay_cols.

Let avg : Series :=
  (λ i, mean_cell df [airport_col] delay_cols (groups !!! i))
    <$> seq 0 (length groups).

Lemma sums_row (i : nat) :
  (i < length groups)%nat →
  row (mkDF (length groups) sums) i
  = Num <$> ((λ c, group_total df [airport_col] c (groups !!! i))
               <$> delay_cols).
Proof.
  intros Hi. unfold row, sums. simpl.
  rewrite <- !list_fmap_compose. apply list_fmap_ext. intros _ c _. simpl.
  by apply (list_lookup_total_fmap
              (λ g, Num (group_total df [airport_col] c g))).
Qed.

Lemma sums_mean :
  mean_axis1 (mkDF (length groups) sums) = Ok avg.
Proof.
  unfold mean_axis1, row_indices. simpl.
  apply traverse_fmap_ok. intros i Hi. apply elem_of_seq in Hi.
  rewrite sums_row by lia. rewrite nanmean_nums.
  unfold mean_cell, mean_of_totals. rewrite length_fmap.
  by destruct delay_cols.
Qed.

Lemma grouped_delays_run :
  grouped_delays delay_cols airport_col df
  = (Ok (mkDF (length groups)
           ((airport_col, (λ k : key, k !!! 0%nat) <$> groups)
              :: col_update "avg_delay_cause" avg sums)), df).
Proof.
  unfold grouped_delays, mbind, Py_bind, reads, lift.
  rewrite groupby_sum_selected by (done || by apply Forall_singleton).
  fold groups. fold sums. simpl. rewrite sums_mean.
  unfold reset_index. simpl. rewrite bool_decide_eq_true_2; [done|].
  split; [apply NoDup_singleton|]. apply Forall_singleton.
  unfold columns, setitem. simpl. rewrite columns_update.
  intros [?|Hin]; [done|]. apply Hfresh.
  unfold sums in Hin. by rewrite <- list_fmap_compose, list_fmap_id in Hin.
Qed.

End grouped_delays.

Lemma lookup_total_fmap_seq {B : Type} `{Inhabited B} (f : nat → B)
    (n i : nat) :
  (i < n)%nat → (f <$> seq 0 n) !!! i = f i.
Proof.
  intros Hi. apply list_lookup_total_correct.
  by rewrite list_lookup_fmap, lookup_seq_lt.
Qed.

Lemma Qsum_fmap_ext {A : Type} (f g : A → Q) (l : list A) :
  (∀ a, f a == g a)%Q → (Qsum (f <$> l) == Qsum (g <$> l))%Q.
Proof.
  intros Hfg. induction l as [|a l IH]; [done|].
  change (f a + Qsum (f <$> l) == g a + Qsum (g <$> l))%Q.
  by rewrite IH, Hfg.
Qed.

Lemma mean_of_totals_spec (df : DataFrame) (keys delay_cols : list string)
    (g : key) :
  (mean_of_totals df keys delay_cols g
   == Qsum ((λ c, column_sum df c (group_rows df keys g)) <$> delay_cols)
      / inject_Z (Z.of_nat (length delay_cols)))%Q.
Proof.
  unfold mean_of_totals. apply Qdiv_comp; [|done].
  rewrite Qsuml_Qsum. apply Qsum_fmap_ext. intros c. apply group_total_sum.
Qed.

(** ** Left join *)

Lemma length_join_row (lkey rkey : Series) (i : nat) :
  length (join_row lkey rkey i)
  = max 1 (length (row_matches lkey rkey i)).
Proof.
  unfold join_row. destruct (row_matches lkey rkey i) as [|j js]; [done|].
  by rewrite length_fmap.
Qed.

Lemma length_bind_sum {A B : Type} (f : A → list B) (l : list A) :
  length (l ≫= f) = sum_list ((λ a, length (f a)) <$> l).
Proof.
  induction l as [|a l IH]; [done|].
  rewrite bind_cons, length_app, IH. done.
Qed.

Lemma length_left_join_pairs (lkey rkey : Series) :
  length (left_join_pairs lkey rkey)
  = sum_list ((λ i, max 1 (length (row_matches lkey rkey i)))
                <$> seq 0 (length lkey)).
Proof.
  unfold left_join_pairs. rewrite length_bind_sum.
  f_equal. apply list_fmap_ext. intros _ i _. apply length_join_row.
Qed.

Lemma sum_list_ge_length (f : nat → nat) (l : list nat) :
  (∀ i, 1 ≤ f i)%nat → (length l ≤ sum_list (f <$> l))%nat.
Proof.
  intros Hf. induction l as [|i l IH]; [done|].
  change (S (length l) ≤ f i + sum_list (f <$> l))%nat.
  specialize (Hf i). lia.
Qed.

Lemma sum_list_ones (f : nat → nat) (l : list nat) :
  (∀ i, i ∈ l → f i = 1%nat) → sum_list (f <$> l) = length l.
Proof.
  intros Hf. induction l as [|i l IH]; [done|].
  change (f i + sum_list (f <$> l) = S (length l))%nat.
  rewrite Hf by left. rewrite IH; [done|].
  intros j Hj. apply Hf. by right.
Qed.

Lemma left_join_pairs_cover (lkey rkey : Series) (i : nat) :
  (i < length lkey)%nat →
  ∃ r j, left_join_pairs lkey rkey !! r = Some (i, j) ∧
         (row_matches lkey rkey i = [] → j = None).
Proof.
  intros Hi.
  assert (∃ j, (i, j) ∈ join_row lkey rkey i ∧
               (row_matches lkey rkey i = [] → j = None))
    as (j & Hj & Hnone).
  { unfold join_row. destruct (row_matches lkey rkey i) as [|j js].
    - exists None. split; [left|done].
    - exists (Some j). split; [left|done]. }
  assert ((i, j) ∈ left_join_pairs lkey rkey) as Hin.
  { unfold left_join_pairs. apply list_elem_of_bind.
    exists i. split; [done|]. apply elem_of_seq. lia. }
  apply list_elem_of_lookup in Hin as [r Hr]. by exists r, j.
Qed.

Lemma merge_left_spec (left right : DataFrame) (left_on right_on : string) :
  left_on ∈ columns left → right_on ∈ columns right →
  let pairs :=
    left_join_pairs (col_total left left_on) (col_total right right_on) in
  ∃ merged,
    merge_left left right left_on right_on = Ok merged ∧
    nrows merged = length pairs ∧
    (∀ k p, cols left !! k = Some p →
       ∃ n, cols merged !! k
            = Some (n, (λ ij : nat * option nat, p.2 !!! ij.1) <$> pairs)) ∧
    (∀ p r i, p ∈ drop (length (cols left)) (cols merged) →
       pairs !! r = Some (i, None) → p.2 !! r = Some NaN).
Proof.
  intros Hl Hr pairs. unfold merge_left.
  rewrite !getitem_present by done. simpl. fold pairs.
  eexists. split; [reflexivity|]. simpl. split; [done|]. split.
  - intros k p Hk. eexists.
    rewrite lookup_app_l by (rewrite length_fmap; by eapply lookup_lt_Some).
    rewrite list_lookup_fmap, Hk. done.
  - intros p r i Hp Hnone.
    rewrite drop_app_length' in Hp by (by rewrite length_fmap).
    apply list_elem_of_fmap in Hp as (p' & -> & _). simpl.
    by rewrite list_lookup_fmap, Hnone.
Qed.



(** ** [prepare_geospatial_data] *)




(** ** Sorting *)

Lemma cell_leb_total (a b : cell) :
  cell_leb a b = true ∨ cell_leb b a = true.
Proof.
  destruct a as [p|s|], b as [q|t|]; simpl; auto.
  - rewrite !Qle_bool_iff. destruct (Qlt_le_dec q p) as [Hlt|Hle]; [|auto].
    right. by apply Qlt_le_weak.
  - apply String.leb_total.
Qed.

Global Instance earlier_first_at_total l : Total (earlier_first_at l).
Proof.
  intros i j. unfold earlier_first_at.
  destruct (cell_leb (l !!! i) (l !!! j)) eqn:Hij,
           (cell_leb (l !!! j) (l !!! i)) eqn:Hji.
  - destruct (decide (i ≤ j)%nat); [left|right]; split; (done || lia).
  - by left.
  - by right.
  - by destruct (cell_leb_total (l !!! i) (l !!! j)) as [?|?]; congruence.
Qed.

Global Instance later_first_at_total l : Total (later_first_at l).
Proof.
  intros i j. unfold later_first_at.
  destruct (cell_leb (l !!! i) (l !!! j)) eqn:Hij,
           (cell_leb (l !!! j) (l !!! i)) eqn:Hji.
  - destruct (decide (j ≤ i)%nat); [left|right]; split; (done || lia).
  - by left.
  - by right.
  - by destruct (cell_leb_total (l !!! i) (l !!! j)) as [?|?]; congruence.
Qed.

Lemma merge_sort_sorts (R : list cell → relation nat)
    `{∀ l i j, Decision (R l i j), ∀ l, Total (R l)} (l : list cell) :
  (∀ i j, R l i j → cell_leb (l !!! i) (l !!! j) = true) →
  sorts (λ l, merge_sort (R l) (seq 0 (length l))) l.
Proof.
  intros Hleb. split.
  - apply merge_sort_Permutation.
  - apply (Sorted_fmap _ (R l)); [exact Hleb|]. by apply Sorted_merge_sort.
Qed.

Lemma argsort_stable_spec : argsort_spec argsort_stable.
Proof.
  intros l _. apply (merge_sort_sorts earlier_first_at). by intros i j [? _].
Qed.

Lemma argsort_later_first_spec : argsort_spec argsort_later_first.
Proof.
  intros l _. apply (merge_sort_sorts later_first_at). by intros i j [? _].
Qed.

Lemma fmap_lookup_seq {A : Type} `{Inhabited A} (l : list A) :
  (λ j, l !!! j) <$> seq 0 (length l) = l.
Proof.
  induction l as [|a l IH]; [done|].
  simpl. rewrite <- fmap_S_seq, <- list_fmap_compose.
  f_equal. exact IH.
Qed.

Lemma fmap_lookup_Permutation {A : Type} `{Inhabited A} (l : list A)
    (a : list nat) :
  a ≡ₚ seq 0 (length l) → (λ j, l !!! j) <$> a ≡ₚ l.
Proof. intros Ha. rewrite Ha. by rewrite fmap_lookup_seq. Qed.

Lemma Sorted_take {A : Type} (R : relation A) (n : nat) (l : list A) :
  Sorted R l → Sorted R (take n l).
Proof.
  intros Hs. revert n. induction Hs as [|a l Hs IH Hhd]; intros [|n];
    simpl; try constructor.
  - apply IH.
  - destruct Hhd as [|b l Hab]; destruct n; simpl; by constructor.
Qed.

Section nargsort.

Context (argsort : list cell → list nat) (Hspec : argsort_spec argsort).
Context (items : list cell).

Let shown : list nat :=
  filter (λ i, notna (items !!! i) = true) (seq 0 (length items)).
Let hidden : list nat :=
  filter (λ i, isnull (items !!! i) = true) (seq 0 (length items)).

Lemma shown_notna (idx : list nat) :
  idx ≡ₚ shown → Forall (λ c, notna c = true) ((λ i, items !!! i) <$> idx).
Proof.
  intros Hidx. apply Forall_fmap, Forall_forall. intros i Hi.
  rewrite Hidx in Hi. by apply list_elem_of_filter in Hi as [? _].
Qed.

Lemma shown_hidden : shown ++ hidden ≡ₚ seq 0 (length items).
Proof.
  unfold shown, hidden.
  rewrite <- (filter_app_complement (λ i, notna (items !!! i) = true)
                (seq 0 (length items))) at 3.
  f_equiv. apply reflexive_eq, filter_ext_elem. intros i _.
  unfold notna. by destruct (isnull (items !!! i)).
Qed.

Lemma sorted_indexer (idx : list nat) :
  idx ≡ₚ shown →
  let a := argsort ((λ i, items !!! i) <$> idx) in
  (λ j, idx !!! j) <$> a ≡ₚ shown ∧
  Sorted (λ x y, cell_leb x y = true)
    ((λ i, items !!! i) <$> ((λ j, idx !!! j) <$> a)).
Proof.
  intros Hidx a.
  destruct (Hspec _ (shown_notna idx Hidx)) as [Hperm Hsorted].
  fold a in Hperm, Hsorted. rewrite length_fmap in Hperm. split.
  - by rewrite (fmap_lookup_Permutation idx a Hperm).
  - rewrite <- list_fmap_compose.
    erewrite list_fmap_ext; [exact Hsorted|].
    intros k j Hj. simpl.
    assert (j ∈ a) as Hin by by eapply list_elem_of_lookup_2.
    rewrite Hperm in Hin. apply elem_of_seq in Hin.
    symmetry. apply (list_lookup_total_fmap (λ i, items !!! i)). lia.
Qed.

Lemma nargsort_Permutation (ascending : bool) :
  nargsort argsort items ascending ≡ₚ seq 0 (length items).
Proof.
  unfold nargsort. fold shown. fold hidden.
  rewrite <- shown_hidden. f_equiv.
  destruct ascending.
  - by apply sorted_indexer.
  - rewrite reverse_Permutation.
    apply sorted_indexer, reverse_Permutation.
Qed.

Lemma nargsort_descending :
  Forall (λ c, notna c = true) items →
  Sorted (λ x y, cell_leb y x = true)
    ((λ i, items !!! i) <$> nargsort argsort items false).
Proof.
  intros Hnotna. unfold nargsort. fold shown. fold hidden.
  assert (hidden = []) as ->.
  { apply filter_nil_iff. intros i Hi Hnull.
    apply elem_of_seq in Hi.
    rewrite Forall_forall in Hnotna.
    assert (notna (items !!! i) = true) as Hn.
    { apply Hnotna, list_elem_of_lookup_total_2. lia. }
    unfold notna in Hn. by rewrite Hnull in Hn. }
  rewrite app_nil_r, fmap_reverse.
  apply (Sorted_reverse (λ x y, cell_leb x y = true)).
  apply sorted_indexer, reverse_Permutation.
Qed.

End nargsort.

(** ** The groups of [groupby] *)

Lemma traverse_Ok_Forall2 {A B : Type} (f : A → outcome B) (l : list A)
    (bs : list B) :
  traverse f l = Ok bs → Forall2 (λ a b, f a = Ok b) l bs.
Proof.
  revert bs. induction l as [|a l IH]; intros bs; simpl.
  - intros [= <-]. constructor.
  - destruct (f a) as [b|] eqn:Hb; [|done]. simpl.
    destruct (traverse f l) as [bs'|]; [|done]. simpl.
    intros [= <-]. constructor; [done|]. by apply IH.
Qed.

Lemma uniq_elem (k : key) (l : list key) : k ∈ uniq l → k ∈ l.
Proof.
  induction l as [|k' l IH]; simpl; [done|].
  intros [->|Hin]%elem_of_cons; [left|].
  right. apply IH. by apply list_elem_of_filter in Hin as [_ ?].
Qed.

Lemma group_keys_elem (df : DataFrame) (keys : list string) (g : key) :
  g ∈ group_keys df keys →
  key_notna g = true ∧ ∃ i, (i < nrows df)%nat ∧ g = row_key df keys i.
Proof.
  unfold group_keys. rewrite sort_keys_Permutation.
  intros Hg%uniq_elem. apply list_elem_of_filter in Hg as [Hna Hg].
  split; [done|]. apply list_elem_of_fmap in Hg as (i & -> & Hi).
  exists i. split; [|done]. apply elem_of_seq in Hi. lia.
Qed.

Lemma group_keys_lookup_notna (df : DataFrame) (keys : list string)
    (g : key) (j : nat) :
  g ∈ group_keys df keys → (j < length keys)%nat → notna (g !!! j) = true.
Proof.
  intros (Hna & i & _ & Hg)%group_keys_elem Hj.
  unfold key_notna in Hna. rewrite forallb_forall in Hna.
  apply Hna. apply list_elem_of_In, list_elem_of_lookup_total_2.
  rewrite Hg. unfold row_key. by rewrite length_fmap.
Qed.

Lemma groupby_sum_Ok (df : DataFrame) (keys : list string)
    (selection : option (list string)) (g : indexed) :
  groupby_sum df keys selection = Ok g →
  Forall (λ c, c ∈ columns df) keys ∧
  level_names g = keys ∧ index g = group_keys df keys ∧
  nrows (frame g) = length (group_keys df keys) ∧
  (selection = None →
   columns (frame g) = filter (λ c, c ∉ keys) (columns df)) ∧
  full_columns (length (group_keys df keys)) (cols (frame g)).
Proof.
  unfold groupby_sum.
  destruct (filter (λ c, c ∉ columns df) keys) as [|c l] eqn:Hkeys; [|done].
  set (summed := match selection with None => _ | Some cs => _ end).
  destruct summed as [cs|] eqn:Hsummed; [|done]. simpl.
  destruct (traverse _ cs) as [summed_cols|] eqn:Hdata; [|done]. simpl.
  intros [= <-]. simpl. split.
  { apply Forall_forall. intros c Hc. apply dec_stable. intros Hno.
    rewrite filter_nil_iff in Hkeys. by apply (Hkeys c). }
  do 3 (split; [done|]).
  apply traverse_Ok_Forall2 in Hdata. split.
  - intros ->. subst summed. simplify_eq. unfold columns at 1. simpl.
    clear -Hdata. induction Hdata as [|c p cs ps Hp _ IH]; [done|].
    rewrite fmap_cons, IH. f_equal.
    destruct (traverse _ (group_keys df keys)); by simplify_eq/=.
  - unfold full_columns. clear -Hdata.
    induction Hdata as [|c p cs ps Hp _ IH]; constructor; [|done].
    destruct (traverse _ (group_keys df keys)) as [s|] eqn:Hs;
      simplify_eq/=.
    split; [by eapply traverse_Ok_length|].
    apply traverse_Ok_Forall2 in Hs. clear -Hs.
    induction Hs as [|g v gs vs Hv _ IH]; constructor; [|done].
    by eapply group_sum_notna.
Qed.

Lemma imap_fst {B : Type} (f : nat → string → B) (l : list string) :
  (imap (λ j n, (n, f j n)) l).*1 = l.
Proof.
  revert f. induction l as [|n l IH]; intros f; [done|].
  simpl. f_equal. apply (IH (λ j, f (S j))).
Qed.

Lemma reset_index_Ok (df : DataFrame) (keys : list string) (g : indexed)
    (grouped : DataFrame) :
  level_names g = keys → index g = group_keys df keys →
  nrows (frame g) = length (group_keys df keys) →
  full_columns (length (group_keys df keys)) (cols (frame g)) →
  reset_index g = Ok grouped →
  nrows grouped = length (group_keys df keys) ∧
  columns grouped = (keys ++ columns (frame g))%list ∧
  full_columns (length (group_keys df keys)) (cols grouped) ∧
  NoDup keys ∧
  cols grouped
  = (imap (λ j n, (n, (λ k : key, k !!! j) <$> group_keys df keys)) keys
     ++ cols (frame g))%list.
Proof.
  intros Hnames Hindex Hrows Hfull. unfold reset_index.
  case_bool_decide as Hdec; [|done]. intros [= <-]. simpl.
  cut (nrows (frame g) = length (group_keys df keys) ∧
       columns (mkDF (nrows (frame g))
                  (imap (λ j n, (n, (λ k : key, k !!! j) <$> index g))
                        (level_names g) ++ cols (frame g)))
       = (keys ++ columns (frame g))%list ∧
       full_columns (length (group_keys df keys))
         (imap (λ j n, (n, (λ k : key, k !!! j) <$> index g))
               (level_names g) ++ cols (frame g))).
  { intros (? & ? & ?). do 3 (split; [done|]).
    rewrite Hindex, Hnames. rewrite Hnames in Hdec. by destruct Hdec. }
  split; [done|]. split.
  { unfold columns. simpl. rewrite fmap_app. f_equal.
    rewrite Hnames. apply imap_fst. }
  apply Forall_app. split; [|done].
  rewrite Hnames, Hindex. apply Forall_forall. intros p Hp.
  apply elem_of_lookup_imap in Hp as (j & n & -> & Hj). simpl.
  split; [by rewrite length_fmap|].
  apply Forall_fmap, Forall_forall. intros k Hk. simpl.
  eapply group_keys_lookup_notna; [done|]. by eapply lookup_lt_Some.
Qed.

(** ** [compute_combo_chart] *)

Section compute_combo_chart.

Context (argsort : list cell → list nat).
Context (entity factor : string).
Context (entity_options : gmap string (string * string)).
Context (delay_factors : list string).

Let run : Py combo :=
  compute_combo_chart argsort entity factor entity_options delay_factors.

(** What a call that returns went through. *)
Lemma combo_steps (df df' : DataFrame) (out : combo) :
  run df = (Ok out, df') →
  ∃ names delays total g grouped items,
    entity_options !! entity = Some names ∧
    getitem_list df delay_factors = Ok delays ∧
    sum_axis1 delays = Ok total ∧
    df' = setitem df "total_delay" total ∧
    groupby_sum df' [names.2; names.1] None = Ok g ∧
    reset_index g = Ok grouped ∧
    getitem grouped "total_delay" = Ok items ∧
    ranked out = head 10 (take_rows grouped (nargsort argsort items false)) ∧
    data (line out) = ranked out.
Proof.
  unfold run, compute_combo_chart, mbind, Py_bind, lift, reads, assign,
    dict_getitem, sort_values, outcome_bind.
  destruct (entity_options !! entity) as [names|] eqn:Hnames; [|done].
  destruct (getitem_list df delay_factors) as [delays|] eqn:Hdelays; [|done].
  destruct (sum_axis1 delays) as [total|] eqn:Htotal; [|done].
  destruct (groupby_sum _ _ None) as [g|] eqn:Hg; [|done].
  destruct (reset_index g) as [grouped|] eqn:Hgrouped; [|done].
  destruct (getitem grouped "total_delay") as [items|] eqn:Hitems; [|done].
  simpl.
  destruct (existsb is_num items && existsb is_str items); [done|].
  intros [= <- <-]. by exists names, delays, total, g, grouped, items.
Qed.

(** The caller's table after a call, whatever the call's outcome. *)
Lemma combo_state (df : DataFrame) :
  (run df).2 = df ∨
  ∃ delays total,
    getitem_list df delay_factors = Ok delays ∧
    sum_axis1 delays = Ok total ∧
    (run df).2 = setitem df "total_delay" total.
Proof.
  unfold run, compute_combo_chart, mbind, Py_bind, lift, reads, assign,
    dict_getitem, sort_values, outcome_bind.
  destruct (entity_options !! entity) as [names|]; [|by left].
  destruct (getitem_list df delay_factors) as [delays|]; [|by left].
  destruct (sum_axis1 delays) as [total|] eqn:Htotal; [|by left].
  right. exists delays, total. do 2 (split; [done|]).
  destruct (groupby_sum _ _ None) as [g|] eqn:Hg; [|done].
  destruct (reset_index g) as [grouped|] eqn:Hgrouped; [|done].
  destruct (getitem grouped "total_delay") as [items|] eqn:Hitems; [|done].
  simpl.
  by destruct (existsb is_num items && existsb is_str items).
Qed.

End compute_combo_chart.

(** ** What [df["total_delay"] = ...] leaves alone *)

Lemma filter_col_update (c : string) (s : Series)
    (l : list (string * Series)) :
  filter (λ p, p.1 ≠ c) (col_update c s l) = filter (λ p, p.1 ≠ c) l.
Proof.
  induction l as [|[c' s'] l IH]; simpl.
  - by rewrite filter_cons_False by (simpl; auto).
  - case_decide as Hc; subst.
    + rewrite !filter_cons_False by (simpl; auto). done.
    + rewrite !filter_cons_True by (simpl; auto). by rewrite IH.
Qed.

Lemma col_update_idemp (c : string) (s : Series)
    (l : list (string * Series)) :
  col_update c s (col_update c s l) = col_update c s l.
Proof.
  induction l as [|[c' s'] l IH]; simpl.
  - by rewrite decide_True.
  - case_decide as Hc; subst; simpl.
    + by rewrite decide_True.
    + rewrite decide_False by done. by rewrite IH.
Qed.

Lemma getitem_setitem_ne (df : DataFrame) (c c' : string) (s : Series) :
  c' ≠ c → getitem (setitem df c s) c' = getitem df c'.
Proof.
  intros Hne. unfold getitem, setitem. simpl.
  by rewrite col_lookup_update_ne.
Qed.

Lemma getitem_list_setitem (df : DataFrame) (c : string) (s : Series)
    (cs : list string) :
  c ∉ cs → getitem_list (setitem df c s) cs = getitem_list df cs.
Proof.
  intros Hc. unfold getitem_list.
  assert (filter (λ c', c' ∉ columns (setitem df c s)) cs
          = filter (λ c', c' ∉ columns df) cs) as ->.
  { apply filter_ext_elem. intros c' Hc'. unfold columns, setitem. simpl.
    rewrite columns_update. split; [tauto|].
    intros Hno [->|Hin]; done. }
  assert ((λ c', (c', col_total (setitem df c s) c')) <$> cs
          = (λ c', (c', col_total df c')) <$> cs) as ->; [|done].
  apply list_fmap_ext. intros i c' Hc'. f_equal.
  unfold col_total, setitem. simpl. rewrite col_lookup_update_ne; [done|].
  intros ->. apply Hc. by eapply list_elem_of_lookup_2.
Qed.

(** C1, as amended: the call writes the column [total_delay] into the
    caller's table and nothing else.  The table keeps its rows and every
    other column, in place and in order, so a read of any other column
    sees what it saw before; and when [total_delay] is not itself one of
    the delay-cause columns, a second call on the same table leaves it
    as the first call left it. *)
Theorem total_delay_written_in_place (argsort : list cell → list nat)
    (entity factor : string) (entity_options : gmap string (string * string))
    (delay_factors : list string) (df : DataFrame) :
  let call :=
    compute_combo_chart argsort entity factor entity_options delay_factors in
  let df' := (call df).2 in
  nrows df' = nrows df ∧
  filter (λ p, p.1 ≠ "total_delay") (cols df')
  = filter (λ p, p.1 ≠ "total_delay") (cols df) ∧
  (∀ c, c ≠ "total_delay" → getitem df' c = getitem df c) ∧
  ("total_delay" ∉ delay_factors → (call df').2 = df').
Proof.
  intros call df'. subst df' call.
  destruct (combo_state argsort entity factor entity_options delay_factors df)
    as [Hsame|(delays & total & Hdelays & Htotal & Hset)].
  - rewrite Hsame. by repeat split.
  - rewrite Hset. split; [done|]. split; [apply filter_col_update|].
    split; [intros c Hc; by apply getitem_setitem_ne|].
    intros Hfresh.
    destruct (combo_state argsort entity factor entity_options delay_factors
                (setitem df "total_delay" total))
      as [Hsame'|(delays' & total' & Hdelays' & Htotal' & Hset')]; [done|].
    rewrite getitem_list_setitem in Hdelays' by done.
    rewrite Hdelays in Hdelays'. injection Hdelays' as <-.
    rewrite Htotal in Htotal'. injection Htotal' as <-.
    rewrite Hset'. unfold setitem. simpl.
    by rewrite col_update_idemp.
Qed.

Lemma total_delay_written_in_place_witness :
  let call :=
    compute_combo_chart argsort_stable "Airline" "weather_delay"
      airline_options ["weather_delay"; "carrier_delay"] in
  getitem (call carriers).2 "weather_delay" = getitem carriers "weather_delay" ∧
  (call (call carriers).2).2 = (call carriers).2.
Proof.
  intros call.
  destruct (total_delay_written_in_place argsort_stable "Airline"
              "weather_delay" airline_options
              ["weather_delay"; "carrier_delay"] carriers)
    as (_ & _ & Hread & Hagain).
  split.
  - apply Hread. discriminate.
  - apply Hagain. by_compute.
Defined.

(** C1, as stated, fails: after the call the caller's table has a column
    it did not have before. *)
Lemma total_delay_column_appears :
  let call :=
    compute_combo_chart argsort_stable "Airline" "weather_delay"
      airline_options ["weather_delay"; "carrier_delay"] in
  columns carriers
  = ["carrier"; "carrier_name"; "weather_delay"; "carrier_delay"] ∧
  columns (call carriers).2
  = ["carrier"; "carrier_name"; "weather_delay"; "carrier_delay";
     "total_delay"] ∧
  getitem carriers "total_delay" = Raise (KeyError ["total_delay"]) ∧
  getitem (call carriers).2 "total_delay"
  = Ok [Num (4 + 2); Num (1 + 3); Num (9 + 0); Num (2 + 0)] ∧
  (call carriers).2 ≠ carriers.
Proof.
  intros call. repeat split; try reflexivity.
  intros Heq. apply (f_equal columns) in Heq. vm_compute in Heq. discriminate.
Qed.

(** ** The ranked table *)

Lemma col_lookup_Some_elem (c : string) (s : Series)
    (l : list (string * Series)) :
  col_lookup c l = Some s → (c, s) ∈ l.
Proof.
  induction l as [|[c' s'] l IH]; simpl; [done|].
  case_decide as Hc; subst.
  - intros [= ->]. left.
  - intros Hs. right. by apply IH.
Qed.

Lemma getitem_full (n : nat) (df : DataFrame) (c : string) (items : Series) :
  full_columns n (cols df) → getitem df c = Ok items →
  length items = n ∧ Forall (λ v, notna v = true) items.
Proof.
  intros Hfull. unfold getitem.
  destruct (col_lookup c (cols df)) as [s|] eqn:Hs; [|done].
  intros [= <-]. apply col_lookup_Some_elem in Hs.
  unfold full_columns in Hfull. rewrite Forall_forall in Hfull.
  apply (Hfull _ Hs).
Qed.

Lemma col_total_setitem_ne (df : DataFrame) (c c' : string) (s : Series) :
  c' ≠ c → col_total (setitem df c s) c' = col_total df c'.
Proof.
  intros Hne. unfold col_total, setitem. simpl.
  by rewrite col_lookup_update_ne.
Qed.

Lemma group_keys_setitem (df : DataFrame) (c : string) (s : Series)
    (keys : list string) :
  c ∉ keys → group_keys (setitem df c s) keys = group_keys df keys.
Proof.
  intros Hc. unfold group_keys, row_indices. simpl.
  do 3 f_equal. apply list_fmap_ext. intros _ i _.
  unfold row_key. apply list_fmap_ext. intros j c' Hc'.
  rewrite col_total_setitem_ne; [done|].
  intros ->. apply Hc. by eapply list_elem_of_lookup_2.
Qed.

Lemma no_str_lookup (s : Series) (i : nat) :
  Forall (λ v, is_str v = false) s → is_str (s !!! i) = false.
Proof.
  intros Hs. rewrite list_lookup_total_alt.
  destruct (s !! i) as [v|] eqn:Hv; [|done]. simpl.
  rewrite Forall_forall in Hs. apply Hs. by eapply list_elem_of_lookup_2.
Qed.

Lemma nansum_nums (l : list cell) :
  Forall (λ v, is_str v = false) l →
  nansum l = Ok (Num (Qsuml (cell_value <$> l))).
Proof.
  intros Hl. unfold nansum.
  assert (fillna0 <$> l = Num <$> (cell_value <$> l)) as ->.
  { rewrite <- list_fmap_compose. apply list_fmap_ext. intros k v Hv.
    rewrite Forall_forall in Hl.
    assert (is_str v = false) as Hs
      by (apply Hl; by eapply list_elem_of_lookup_2).
    by destruct v. }
  apply reduce_add_nums.
Qed.

Lemma sum_axis1_numeric (table : DataFrame) :
  Forall (λ p, Forall (λ v, is_str v = false) p.2) (cols table) →
  sum_axis1 table
  = Ok ((λ i, Num (Qsuml (cell_value <$> row table i)))
          <$> row_indices table).
Proof.
  intros Hnum. unfold sum_axis1. apply traverse_fmap_ok. intros i _.
  apply nansum_nums. unfold row. apply Forall_fmap, Forall_forall.
  intros p Hp. simpl. apply no_str_lookup.
  rewrite Forall_forall in Hnum. by apply Hnum.
Qed.

Lemma groupby_sum_all (df : DataFrame) (keys : list string) :
  Forall (λ c, c ∈ columns df) keys →
  (∀ c, c ∈ columns df → c ∉ keys → numeric df c) →
  groupby_sum df keys None
  = Ok (mkIndexed keys (group_keys df keys)
          (mkDF (length (group_keys df keys))
             ((λ c, (c, (λ g, Num (group_total df keys c g))
                          <$> group_keys df keys))
                <$> filter (λ c, c ∉ keys) (columns df)))).
Proof.
  intros Hkeys Hnum. unfold groupby_sum.
  rewrite filter_absent_nil by done. simpl.
  rewrite (traverse_fmap_ok _
    (λ c, (c, (λ g, Num (group_total df keys c g)) <$> group_keys df keys)));
    [done|].
  intros c Hc. apply list_elem_of_filter in Hc as [Hc Hin].
  rewrite (traverse_fmap_ok _ (λ g, Num (group_total df keys c g))); [done|].
  intros g _. apply group_sum_numeric, numeric_group_cells. by apply Hnum.
Qed.

Lemma existsb_is_str_false (s : Series) :
  Forall (λ v, is_str v = false) s → existsb is_str s = false.
Proof. induction 1 as [|v s Hv _ IH]; [done|]. simpl. by rewrite Hv, IH. Qed.

Section ranking.

Context (argsort : list cell → list nat) (Hspec : argsort_spec argsort).
Context (entity factor : string).
Context (entity_options : gmap string (string * string)).
Context (delay_factors : list string).
Context (name_col code_col : string).

Hypothesis Hentity : entity_options !! entity = Some (name_col, code_col).

Let run : Py combo :=
  compute_combo_chart argsort entity factor entity_options delay_factors.

(** What a returning call ranked: the grouped table, the order it was
    put in, and the first ten rows of that. *)
Lemma ranked_steps (df df' : DataFrame) (out : combo) :
  run df = (Ok out, df') →
  ∃ total grouped items,
    df' = setitem df "total_delay" total ∧
    nrows grouped = length (group_keys df' [code_col; name_col]) ∧
    full_columns (length (group_keys df' [code_col; name_col]))
      (cols grouped) ∧
    getitem grouped "total_delay" = Ok items ∧
    ranked out = head 10 (take_rows grouped (nargsort argsort items false)) ∧
    code_col ≠ name_col ∧
    col_lookup code_col (cols grouped)
    = Some ((λ k : key, k !!! 0%nat)
              <$> group_keys df' [code_col; name_col]) ∧
    col_lookup name_col (cols grouped)
    = Some ((λ k : key, k !!! 1%nat)
              <$> group_keys df' [code_col; name_col]).
Proof.
  intros Hrun.
  apply combo_steps in Hrun
    as (names & delays & total & g & grouped & items & Hnames & _ & _ & Hdf'
        & Hg & Hgrouped & Hitems & Hranked & _).
  rewrite Hentity in Hnames. injection Hnames as <-. simpl in Hg.
  apply groupby_sum_Ok in Hg as (_ & Hlevels & Hindex & Hrows & _ & Hfull).
  destruct (reset_index_Ok df' _ g grouped Hlevels Hindex Hrows Hfull Hgrouped)
    as (Hrows' & _ & Hfull' & Hnodup & Hcols).
  assert (code_col ≠ name_col) as Hne.
  { apply NoDup_cons in Hnodup as [Hne _]. intros ->. apply Hne. left. }
  exists total, grouped, items. do 6 (split; [done|]).
  rewrite Hcols. simpl. rewrite decide_True by done. split; [done|].
  rewrite decide_False by done. by rewrite decide_True.
Qed.

Lemma ranked_rows (df df' : DataFrame) (out : combo) :
  run df = (Ok out, df') →
  nrows (ranked out) = min 10 (length (group_keys df' [code_col; name_col])).
Proof.
  intros Hrun.
  destruct (ranked_steps _ _ _ Hrun)
    as (total & grouped & items & _ & Hrows & Hfull & Hitems & Hranked & _).
  rewrite Hranked.
  change (nrows (head 10 (take_rows grouped (nargsort argsort items false))))
    with (min 10 (length (nargsort argsort items false))).
  rewrite (nargsort_Permutation argsort Hspec items false), length_seq.
  by destruct (getitem_full _ _ _ _ Hfull Hitems) as [-> _].
Qed.

(** A call on a table of numbers returns. *)
Lemma ranking_returns (df : DataFrame) :
  code_col ≠ name_col →
  Forall (λ c, c ∈ columns df) delay_factors →
  Forall (numeric df) delay_factors →
  Forall (λ c, c ∈ columns df ∨ c = "total_delay") [code_col; name_col] →
  (∀ c, c ∈ columns df → c ∉ [code_col; name_col] → c ≠ "total_delay" →
        numeric df c) →
  ∃ out df', run df = (Ok out, df').
Proof.
  intros Hne Hdelays Hnumeric Hkeys Hrest.
  unfold run, compute_combo_chart, mbind, Py_bind, lift, reads, assign,
    dict_getitem, outcome_bind.
  rewrite Hentity, getitem_list_present by done.
  rewrite sum_axis1_numeric.
  2:{ simpl. apply Forall_fmap, Forall_forall. intros c Hc. simpl.
      rewrite Forall_forall in Hnumeric. by apply Hnumeric. }
  set (total := _ <$> row_indices _). simpl.
  set (df' := setitem df "total_delay" total).
  assert (numeric df' "total_delay") as Htotal.
  { unfold numeric, col_total, df', setitem. simpl.
    rewrite col_lookup_update_eq. simpl. by apply Forall_fmap, Forall_forall. }
  assert (∀ c, c ∈ columns df' → c ∉ [code_col; name_col] → numeric df' c)
    as Hnum'.
  { intros c Hc Hk. destruct (decide (c = "total_delay")) as [->|Hc']; [done|].
    unfold numeric, df'. rewrite col_total_setitem_ne by done.
    apply Hrest; [|done..]. unfold columns, df', setitem in Hc. simpl in Hc.
    apply columns_update in Hc as [?|?]; done. }
  assert (Forall (λ c, c ∈ columns df') [code_col; name_col]) as Hkeys'.
  { eapply Forall_impl; [exact Hkeys|]. intros c Hc.
    unfold columns, df', setitem. simpl. apply columns_update.
    destruct Hc as [?|?]; [by right|by left]. }
  rewrite groupby_sum_all by done. unfold reset_index. simpl.
  rewrite bool_decide_eq_true_2.
  2:{ split.
      - apply NoDup_cons_2; [|apply NoDup_singleton].
        rewrite list_elem_of_singleton. exact Hne.
      - apply Forall_forall. intros c Hc. unfold columns. simpl.
        rewrite <- list_fmap_compose, list_fmap_id.
        intros [Hno _]%list_elem_of_filter. by apply Hno. }
  simpl. unfold sort_values.
  set (grouped := mkDF _ _).
  assert ("total_delay" ∈ columns grouped) as Hin.
  { unfold columns, grouped. simpl.
    rewrite <- list_fmap_compose, list_fmap_id.
    destruct (decide ("total_delay" ∈ [code_col; name_col])) as [Hk|Hk].
    - apply elem_of_cons in Hk as [<-|Hk]; [left|].
      apply list_elem_of_singleton in Hk as <-. right. left.
    - do 2 right. apply list_elem_of_filter. split; [done|].
      unfold columns, df', setitem. simpl. apply columns_update. by left. }
  rewrite (getitem_present _ _ Hin). simpl.
  rewrite (existsb_is_str_false (col_total grouped "total_delay")).
  { rewrite andb_false_r. by eexists _, _. }
  assert (∀ g, g ∈ group_keys df' [code_col; name_col] → ∀ j c,
            [code_col; name_col] !! j = Some c → numeric df' c →
            is_str (g !!! j) = false) as Hkey.
  { intros g (_ & i & _ & ->)%group_keys_elem j c Hj Hc.
    unfold row_key.
    rewrite (list_lookup_total_fmap (λ c, col_total df' c !!! i))
      by (by eapply lookup_lt_Some).
    rewrite (list_lookup_total_correct _ _ _ Hj). by apply no_str_lookup. }
  unfold col_total, grouped. simpl.
  destruct (decide ("total_delay" = code_col)) as [<-|Hc].
  { simpl. apply Forall_fmap, Forall_forall. intros g Hg. simpl.
    by apply (Hkey g Hg 0%nat "total_delay"). }
  destruct (decide ("total_delay" = name_col)) as [<-|Hn].
  { simpl. apply Forall_fmap, Forall_forall. intros g Hg. simpl.
    by apply (Hkey g Hg 1%nat "total_delay"). }
  set (summed := _ <$> filter _ _).
  destruct (col_lookup "total_delay" summed) as [s|] eqn:Hs; [|done]. simpl.
  apply col_lookup_Some_elem in Hs. unfold summed in Hs.
  apply list_elem_of_fmap in Hs as (c & [= _ ->] & _).
  by apply Forall_fmap, Forall_forall.
Qed.

End ranking.

Lemma wf_empty_numeric (df : DataFrame) (c : string) :
  wf_df df → nrows df = 0%nat → numeric df c.
Proof.
  intros [_ Hlen] Hrows. unfold numeric, col_total.
  destruct (col_lookup c (cols df)) as [s|] eqn:Hs; [|constructor]. simpl.
  apply col_lookup_Some_elem in Hs. rewrite Forall_forall in Hlen.
  specialize (Hlen _ Hs). simpl in Hlen. rewrite Hrows in Hlen.
  apply nil_length_inv in Hlen as ->. constructor.
Qed.



Lemma col_total_head_take_rows (n : nat) (df : DataFrame) (order : list nat)
    (c : string) (items : Series) :
  getitem df c = Ok items →
  col_total (head n (take_rows df order)) c
  = take n ((λ i, items !!! i) <$> order).
Proof.
  unfold getitem, col_total, head, take_rows. simpl.
  rewrite (col_lookup_fmap (take n)).
  rewrite (col_lookup_fmap (λ s, (λ i, s !!! i) <$> order)).
  destruct (col_lookup c (cols df)) as [s|]; [|done]. by intros [= <-].
Qed.




(** ** Missing columns *)

Lemma filter_length_eq {A : Type} (P : A → Prop) `{∀ x, Decision (P x)}
    (l : list A) :
  length (filter P l) = length l → filter P l = l.
Proof.
  induction l as [|a l IH]; [done|]. rewrite filter_cons.
  destruct (decide (P a)); simpl.
  - intros [= Hlen]. by rewrite IH.
  - intros Hlen. pose proof (length_filter P l). lia.
Qed.

Lemma getitem_list_absent (df : DataFrame) (cs : list string) :
  filter (λ c, c ∉ columns df) cs ≠ [] →
  ∃ names, getitem_list df cs = Raise (KeyError names) ∧ names ≠ [] ∧
           ∀ n, n ∈ names ↔ n ∈ cs ∧ n ∉ columns df.
Proof.
  intros Hmissing. unfold getitem_list.
  remember (filter (λ c, c ∉ columns df) cs) as missing eqn:Hfilter.
  destruct missing as [|c missing]; [done|].
  eexists. split; [done|]. rewrite Hfilter in *. clear c missing Hfilter.
  case_decide as Hall.
  - apply filter_length_eq in Hall. rewrite Hall in Hmissing.
    split; [done|]. intros n. rewrite <- Hall at 1.
    rewrite list_elem_of_filter. tauto.
  - split.
    + intros Hnil. apply Hmissing.
      destruct (filter _ cs) as [|c l]; [done|].
      assert (c ∈ remove_dups (c :: l)) as Hin
        by (apply elem_of_remove_dups; left).
      rewrite Hnil in Hin. by apply not_elem_of_nil in Hin.
    + intros n. rewrite elem_of_remove_dups, list_elem_of_filter. tauto.
Qed.

(** C5, as amended: when a delay-cause column is absent the call fails
    at once with a [KeyError] that names exactly the absent delay-cause
    columns and leaves the table untouched; when the delay-cause columns
    are present and numeric but an entity-key column other than
    [total_delay] is absent, it fails with a [KeyError] naming the first
    absent entity-key column (the code column before the name column).
    Nothing catches the error. *)
Theorem missing_column_key_error (argsort : list cell → list nat)
    (entity factor : string) (entity_options : gmap string (string * string))
    (delay_factors : list string) (name_col code_col : string)
    (df : DataFrame) :
  entity_options !! entity = Some (name_col, code_col) →
  let call :=
    compute_combo_chart argsort entity factor entity_options delay_factors in
  ((∃ c, c ∈ delay_factors ∧ c ∉ columns df) →
   ∃ names,
     call df = (Raise (KeyError names), df) ∧ names ≠ [] ∧
     ∀ n, n ∈ names ↔ n ∈ delay_factors ∧ n ∉ columns df) ∧
  (Forall (λ c, c ∈ columns df) delay_factors →
   Forall (numeric df) delay_factors →
   (((code_col ∉ columns df) ∧ code_col ≠ "total_delay") ∨
    ((name_col ∉ columns df) ∧ name_col ≠ "total_delay")) →
   ∃ n df',
     call df = (Raise (KeyError [n]), df') ∧
     (n ∉ columns df) ∧
     n = (if decide (code_col ∈ columns df ∨ code_col = "total_delay")
          then name_col else code_col)).
Proof.
  intros Hentity call. subst call.
  unfold compute_combo_chart, mbind, Py_bind, lift, reads, assign,
    dict_getitem, outcome_bind.
  rewrite Hentity. split.
  - intros Habsent.
    apply (filter_nonnil_iff (λ c, c ∉ columns df)) in Habsent.
    destruct (getitem_list_absent df delay_factors Habsent)
      as (names & -> & Hne & Hnames).
    by exists names.
  - intros Hdelays Hnumeric Hkey.
    rewrite getitem_list_present by done.
    rewrite sum_axis1_numeric.
    2:{ simpl. apply Forall_fmap, Forall_forall. intros c Hc. simpl.
        rewrite Forall_forall in Hnumeric. by apply Hnumeric. }
    set (total := _ <$> row_indices _). simpl.
    assert (∀ c, c ∈ columns (setitem df "total_delay" total)
                 ↔ c = "total_delay" ∨ c ∈ columns df) as Hcols.
    { intros c. unfold columns, setitem. simpl. apply columns_update. }
    unfold groupby_sum.
    case_decide as Hcode.
    + destruct Hkey as [[? ?]|[Hname Hname']]; [tauto|].
      rewrite filter_cons_False by (rewrite Hcols; tauto).
      rewrite filter_cons_True by (rewrite Hcols; tauto).
      by eexists _, _.
    + rewrite filter_cons_True by (rewrite Hcols; tauto).
      eexists _, _. split; [done|]. split; [tauto|done].
Qed.

Lemma missing_column_key_error_witness :
  compute_combo_chart argsort_stable "Airline" "weather_delay"
    airline_options ["weather_delay"; "security_delay"; "nas_delay"] carriers
  = (Raise (KeyError ["security_delay"; "nas_delay"]), carriers) ∧
  ∃ df',
    compute_combo_chart argsort_stable "Airport" "weather_delay"
      airport_options ["weather_delay"; "carrier_delay"] carriers
    = (Raise (KeyError ["airport"]), df').
Proof.
  split; [reflexivity|].
  destruct (missing_column_key_error argsort_stable "Airport" "weather_delay"
              airport_options ["weather_delay"; "carrier_delay"]
              "airport_name" "airport" carriers eq_refl)
    as (_ & Hkey).
  destruct Hkey as (n & df' & Hrun & _ & ->); try by_compute.
  exists df'. exact Hrun.
Defined.

(** C5, as stated, fails when the absent entity-key column is the derived
    column: [carriers] has no [total_delay] column, the entity names it
    as its code column, and the call returns, having created the column
    itself.  And when both entity-key columns are absent the error names
    only the first. *)
Lemma derived_column_as_entity_key :
  ("total_delay" ∉ columns carriers) ∧
  derived_key_options !! "Airline" = Some ("carrier_name", "total_delay") ∧
  (∃ out df',
     compute_combo_chart argsort_stable "Airline" "weather_delay"
       derived_key_options ["weather_delay"; "carrier_delay"] carriers
     = (Ok out, df')) ∧
  ("airport" ∉ columns carriers) ∧ ("airport_name" ∉ columns carriers) ∧
  (compute_combo_chart argsort_stable "Airport" "weather_delay"
     airport_options ["weather_delay"; "carrier_delay"] carriers).1
  = Raise (KeyError ["airport"]).
Proof.
  split; [by_compute|]. split; [reflexivity|].
  split; [eexists _, _; vm_compute; reflexivity|].
  split; [by_compute|]. split; [by_compute|reflexivity].
Qed.

(** * Further properties of the module *)

(** ** [validate_data]: what the report holds *)

Lemma to_dict_lookup (f : string → nat) (l : list (string * nat))
    (c : string) (n : nat) :
  (∀ p, p ∈ l → p.2 = f p.1) →
  to_dict l !! c = Some n ↔ (c, n) ∈ l.
Proof.
  induction l as [|[c' n'] l IH] using rev_ind; intros Hf.
  - unfold to_dict. simpl. rewrite lookup_empty.
    split; [done|]. by intros ?%not_elem_of_nil.
  - rewrite to_dict_snoc, elem_of_app, list_elem_of_singleton. simpl.
    assert (∀ p', p' ∈ l → p'.2 = f p'.1) as Hl
      by (intros p' Hp'; apply Hf, elem_of_app; by left).
    assert (n' = f c') as Hn'
      by (apply (Hf (c', n')), elem_of_app; right;
          by apply list_elem_of_singleton).
    destruct (decide (c' = c)) as [->|Hne].
    + rewrite lookup_insert_eq. split.
      * intros [= <-]. by right.
      * intros [Hin|[= ->]]; [|done].
        apply Hl in Hin. simpl in Hin. by subst.
    + rewrite lookup_insert_ne by done. rewrite (IH Hl).
      split; [by left|]. by intros [?|[= -> ->]].
Qed.

(** X1: the report lists in [missing_columns] the required columns that
    the table lacks, in the order they were required, and its
    [missing_values] has an entry exactly for each required column that
    is present and holds a missing value, giving the number of its
    missing values. *)
Theorem validate_data_report (R : list string) (df : DataFrame) :
  ∃ rep, validate_data R df = (Ok rep, df) ∧
    missing_columns rep = filter (λ c, c ∉ columns df) R ∧
    ∀ c n, missing_values rep !! c = Some n ↔
           c ∈ R ∧ c ∈ columns df ∧ n = null_count df c ∧ (0 < n)%nat.
Proof.
  eexists. split; [apply validate_data_run|]. simpl. split; [done|].
  intros c n.
  rewrite (to_dict_lookup (null_count df)).
  - rewrite list_elem_of_filter. unfold isnull_sum. simpl.
    rewrite <- list_fmap_compose, list_elem_of_fmap. simpl. split.
    + intros (Hpos & c' & [= -> ->] & Hc').
      apply list_elem_of_filter in Hc' as [? ?]. done.
    + intros (HR & Hc & -> & Hpos). split; [done|].
      exists c. split; [done|]. by apply list_elem_of_filter.
  - intros p [_ Hp]%list_elem_of_filter. unfold isnull_sum in Hp. simpl in Hp.
    rewrite <- list_fmap_compose in Hp.
    by apply list_elem_of_fmap in Hp as (c' & -> & _).
Qed.

(** X2: validating against two requirement lists at once is validating
    against each: the missing columns are those of the first list
    followed by those of the second, and the table is valid for both
    together exactly when it is valid for each. *)
Theorem validate_data_app (R1 R2 : list string) (df : DataFrame) :
  ∃ rep rep1 rep2,
    report_of (R1 ++ R2)%list df = Some rep ∧
    report_of R1 df = Some rep1 ∧ report_of R2 df = Some rep2 ∧
    missing_columns rep
    = (missing_columns rep1 ++ missing_columns rep2)%list ∧
    is_valid rep = is_valid rep1 && is_valid rep2.
Proof.
  unfold report_of. rewrite !validate_data_run. simpl.
  eexists _, _, _. do 3 (split; [reflexivity|]). simpl.
  rewrite !filter_app. split; [done|].
  unfold isnull_sum. simpl. rewrite !fmap_app, filter_app.
  set (m1 := filter _ R1). set (m2 := filter _ R2).
  set (n1 := filter _ (_ <$> (_ <$> filter _ R1))).
  set (n2 := filter _ (_ <$> (_ <$> filter _ R2))).
  apply eq_true_iff_eq.
  rewrite !andb_true_iff, !bool_decide_eq_true.
  split.
  - intros [[-> ->]%app_eq_nil [-> ->]%app_eq_nil]. done.
  - intros [[-> ->] [-> ->]]. done.
Qed.

(** ** [display_counts]: errors, and the table it leaves *)

Lemma columns_getitem_mask (df : DataFrame) (mask : list bool) :
  columns (getitem_mask df mask) = columns df.
Proof.
  unfold columns, getitem_mask. simpl.
  rewrite <- list_fmap_compose. by apply list_fmap_ext.
Qed.

Lemma int_sum_absent (int_of_str : string → outcome Z) (table : DataFrame)
    (c : string) :
  c ∉ columns table → int_sum int_of_str table c = Raise (KeyError [c]).
Proof. intros Hc. unfold int_sum. by rewrite getitem_absent. Qed.

(** X3: [display_counts] reads the year, airport and month columns in that
    order and fails with a [KeyError] naming the first one the table
    lacks.  The two count columns are read only when some row matches:
    then a missing cancellation column, or else a missing diversion
    column, is the [KeyError]. *)
Theorem display_counts_key_errors (int_of_str : string → outcome Z)
    (df : DataFrame) (year airport month : cell)
    (year_col month_col airport_col cancelled_col diverted_col : string) :
  let call :=
    display_counts int_of_str year airport month
      year_col month_col airport_col cancelled_col diverted_col in
  let rows :=
    matching_rows df year airport month year_col month_col airport_col in
  (year_col ∉ columns df → call df = (Raise (KeyError [year_col]), df)) ∧
  (year_col ∈ columns df → airport_col ∉ columns df →
   call df = (Raise (KeyError [airport_col]), df)) ∧
  (year_col ∈ columns df → airport_col ∈ columns df →
   month_col ∉ columns df →
   call df = (Raise (KeyError [month_col]), df)) ∧
  (wf_df df → year_col ∈ columns df → airport_col ∈ columns df →
   month_col ∈ columns df → rows ≠ [] →
   (cancelled_col ∉ columns df →
    call df = (Raise (KeyError [cancelled_col]), df)) ∧
   (cancelled_col ∈ columns df → numeric_on df cancelled_col rows →
    diverted_col ∉ columns df →
    call df = (Raise (KeyError [diverted_col]), df))).
Proof.
  intros call rows. subst call.
  unfold display_counts, mbind, Py_bind, reads, lift, mret, Py_ret.
  split; [|split; [|split]].
  - intros Hy. by rewrite (getitem_absent _ _ Hy).
  - intros Hy Ha. by rewrite (getitem_present _ _ Hy), (getitem_absent _ _ Ha).
  - intros Hy Ha Hm.
    by rewrite (getitem_present _ _ Hy), (getitem_present _ _ Ha),
      (getitem_absent _ _ Hm).
  - intros Hwf Hy Ha Hm Hrows.
    rewrite (getitem_present _ _ Hy), (getitem_present _ _ Ha),
      (getitem_present _ _ Hm).
    rewrite (filtered_empty df year airport month year_col month_col
               airport_col Hwf Hy Ha Hm).
    rewrite bool_decide_eq_false_2 by done.
    split.
    + intros Hc. rewrite int_sum_absent; [done|].
      by rewrite columns_getitem_mask.
    + intros Hc Hnum Hd.
      destruct (filtered_total int_of_str df year airport month year_col
                  month_col airport_col Hwf Hy Ha Hm cancelled_col Hc Hnum)
        as (q & -> & _).
      rewrite int_sum_absent; [done|]. by rewrite columns_getitem_mask.
Qed.

Lemma display_counts_key_errors_witness :
  display_counts int_of_str_none (Num 2023) (Str "JFK") (Num 1)
    "year" "month" "airport" "arr_cancelled" "arr_diverted" jfk_table
  = (Raise (KeyError ["airport"]), jfk_table) ∧
  display_counts int_of_str_none (Num 2023) (Str "JFK") (Num 1)
    "year" "month" "airport_name" "cancelled" "arr_diverted" jfk_table
  = (Raise (KeyError ["cancelled"]), jfk_table).
Proof.
  split.
  - refine (proj1 (proj2 (display_counts_key_errors int_of_str_none jfk_table
      (Num 2023) (Str "JFK") (Num 1)
      "year" "month" "airport" "arr_cancelled" "arr_diverted")) _ _);
      by_compute.
  - refine (proj1 (proj2 (proj2 (proj2 (display_counts_key_errors
      int_of_str_none jfk_table (Num 2023) (Str "JFK") (Num 1)
      "year" "month" "airport_name" "cancelled" "arr_diverted")))
      _ _ _ _ _) _); by_compute.
Defined.

Lemma display_counts_state (int_of_str : string → outcome Z)
    (df : DataFrame) (year airport month : cell)
    (year_col month_col airport_col cancelled_col diverted_col : string) :
  (display_counts int_of_str year airport month
     year_col month_col airport_col cancelled_col diverted_col df).2 = df.
Proof.
  unfold display_counts, mbind, Py_bind, reads, lift, mret, Py_ret.
  destruct (getitem df year_col); [|done].
  destruct (getitem df airport_col); [|done].
  destruct (getitem df month_col); [|done].
  destruct (empty _); [done|].
  destruct (int_sum _ _ cancelled_col); [|done].
  by destruct (int_sum _ _ diverted_col).
Qed.

Lemma cell_eqb_notna (a b : cell) :
  cell_eqb a b = true → notna a = true ∧ notna b = true.
Proof. by destruct a, b. Qed.

(** X4: a missing value never passes the filter of [display_counts]: a
    row matches only if its year, airport and month cells are all
    present, and when one of the three criteria is itself a missing
    value no row matches, so both counts are 0. *)
Theorem display_counts_missing_values (int_of_str : string → outcome Z)
    (df : DataFrame) (year airport month : cell)
    (year_col month_col airport_col cancelled_col diverted_col : string) :
  wf_df df →
  year_col ∈ columns df → airport_col ∈ columns df → month_col ∈ columns df →
  (∀ i, i ∈ matching_rows df year airport month year_col month_col
              airport_col →
        notna (col_total df year_col !!! i) = true ∧
        notna (col_total df airport_col !!! i) = true ∧
        notna (col_total df month_col !!! i) = true) ∧
  (isnull year = true ∨ isnull airport = true ∨ isnull month = true →
   display_counts int_of_str year airport month
     year_col month_col airport_col cancelled_col diverted_col df
   = (Ok (mkSummary airport year month 0 0), df)).
Proof.
  intros Hwf Hy Ha Hm. split.
  - intros i [Hi _]%list_elem_of_filter. unfold matches in Hi.
    apply andb_true_iff in Hi as [[Hyi Hai]%andb_true_iff Hmi].
    apply cell_eqb_notna in Hyi as [? _].
    apply cell_eqb_notna in Hai as [? _].
    by apply cell_eqb_notna in Hmi as [? _].
  - intros Hnull. apply display_counts_no_match; [done..|].
    apply filter_nil_iff. intros i _ Hi. unfold matches in Hi.
    apply andb_true_iff in Hi as [[Hyi Hai]%andb_true_iff Hmi].
    apply cell_eqb_notna in Hyi as [_ Hyn].
    apply cell_eqb_notna in Hai as [_ Han].
    apply cell_eqb_notna in Hmi as [_ Hmn].
    unfold notna in *.
    destruct Hnull as [Hn|[Hn|Hn]]; rewrite Hn in *; done.
Qed.

Lemma display_counts_missing_values_witness :
  display_counts int_of_str_none (Num 2023) NaN (Num 1)
    "year" "month" "airport_name" "arr_cancelled" "arr_diverted" jfk_table
  = (Ok (mkSummary NaN (Num 2023) (Num 1) 0 0), jfk_table).
Proof.
  refine (proj2 (display_counts_missing_values int_of_str_none jfk_table
    (Num 2023) NaN (Num 1)
    "year" "month" "airport_name" "arr_cancelled" "arr_diverted"
    _ _ _ _) _); by_compute.
Defined.

(** ** [display_counts]: the order of the rows *)

Lemma Qsum_Permutation (l l' : list Q) : l ≡ₚ l' → (Qsum l == Qsum l')%Q.
Proof.
  induction 1 as [|q l l' _ IH|p q l|l l' l'' _ IH _ IH']; [done|..].
  - change (q + Qsum l == q + Qsum l')%Q. by rewrite IH.
  - change (q + (p + Qsum l) == p + (q + Qsum l))%Q.
    rewrite !Qplus_assoc. by rewrite (Qplus_comm q p).
  - by rewrite IH.
Qed.

Lemma columns_take_rows (df : DataFrame) (order : list nat) :
  columns (take_rows df order) = columns df.
Proof.
  unfold columns, take_rows. simpl.
  rewrite <- list_fmap_compose. by apply list_fmap_ext.
Qed.

Lemma col_total_take_rows (df : DataFrame) (order : list nat) (c : string) :
  c ∈ columns df →
  col_total (take_rows df order) c
  = (λ i, col_total df c !!! i) <$> order.
Proof.
  intros Hc. apply col_lookup_is_Some in Hc as [s Hs].
  unfold col_total, take_rows. simpl.
  rewrite (col_lookup_fmap (λ s, (λ i, s !!! i) <$> order)). by rewrite Hs.
Qed.

Lemma wf_take_rows (df : DataFrame) (order : list nat) :
  wf_df df → wf_df (take_rows df order).
Proof.
  intros [Hnodup _]. split; [by rewrite columns_take_rows|].
  unfold take_rows. simpl. apply Forall_fmap, Forall_forall.
  intros p _. simpl. by rewrite length_fmap.
Qed.

Section row_order.

Context (df : DataFrame) (year airport month : cell).
Context (year_col month_col airport_col : string).
Context (order : list nat).

Hypothesis Hwf : wf_df df.
Hypothesis Hyear : year_col ∈ columns df.
Hypothesis Hairport : airport_col ∈ columns df.
Hypothesis Hmonth : month_col ∈ columns df.
Hypothesis Horder : order ≡ₚ seq 0 (nrows df).

Let rows : list nat :=
  matching_rows df year airport month year_col month_col airport_col.
Let rows' : list nat :=
  matching_rows (take_rows df order) year airport month
    year_col month_col airport_col.

Lemma reordered_cell (c : string) (i : nat) :
  c ∈ columns df → (i < length order)%nat →
  col_total (take_rows df order) c !!! i
  = col_total df c !!! (order !!! i).
Proof.
  intros Hc Hi. rewrite col_total_take_rows by done.
  by apply (list_lookup_total_fmap (λ i, col_total df c !!! i)).
Qed.

Lemma reordered_rows :
  (λ i, order !!! i) <$> rows' ≡ₚ rows.
Proof.
  unfold rows', rows, matching_rows, row_indices. simpl.
  rewrite (filter_ext_elem _
    (λ i, matches df year airport month year_col month_col airport_col
            (order !!! i) = true)).
  2:{ intros i Hi%elem_of_seq. unfold matches.
      rewrite !reordered_cell by (done || lia). done. }
  pose proof (filter_fmap (λ i : nat, order !!! i)
    (λ i, matches df year airport month year_col month_col airport_col i
          = true) (seq 0 (length order))) as E.
  rewrite fmap_lookup_seq in E.
  trans (filter (λ i, matches df year airport month year_col month_col
                        airport_col i = true) order);
    [|by rewrite Horder].
  apply reflexive_eq. symmetry. exact E.
Qed.

Lemma reordered_sum (c : string) :
  c ∈ columns df →
  (column_sum (take_rows df order) c rows' == column_sum df c rows)%Q.
Proof.
  intros Hc. unfold column_sum.
  rewrite <- (Qsum_Permutation _ _
    (fmap_Permutation (λ i, cell_value (col_total df c !!! i)) _ _
       reordered_rows)).
  rewrite <- list_fmap_compose.
  erewrite list_fmap_ext; [reflexivity|].
  intros k i Hi. simpl.
  rewrite reordered_cell; [done..|].
  apply list_elem_of_lookup_2, list_elem_of_filter in Hi as [_ Hi].
  apply elem_of_seq in Hi. simpl in Hi. lia.
Qed.

Lemma reordered_numeric (c : string) :
  c ∈ columns df → numeric df c → numeric_on (take_rows df order) c rows'.
Proof.
  intros Hc Hnum. apply Forall_forall. intros i Hi.
  apply list_elem_of_filter in Hi as [_ Hi]. apply elem_of_seq in Hi.
  simpl in Hi. rewrite reordered_cell by (done || lia).
  by apply numeric_lookup.
Qed.

End row_order.



(** ** [error_check]: a column of numbers *)



(** ** [prepare_geospatial_data]: errors *)

Lemma grouped_delays_state (df : DataFrame) (delay_cols : list string)
    (airport_col : string) :
  (grouped_delays delay_cols airport_col df).2 = df.
Proof.
  unfold grouped_delays, mbind, Py_bind, reads, lift.
  destruct (groupby_sum df [airport_col] (Some delay_cols)) as [g|]; [|done].
  destruct (mean_axis1 (frame g)); [|done].
  by destruct (reset_index _).
Qed.

Lemma prepare_geospatial_data_state (df coords_df : DataFrame)
    (delay_cols : list string) (airport_col iata_col : string) :
  (prepare_geospatial_data coords_df delay_cols airport_col iata_col df).2
  = df.
Proof.
  pose proof (grouped_delays_state df delay_cols airport_col) as Hstate.
  unfold prepare_geospatial_data, mbind, Py_bind, lift.
  destruct (grouped_delays delay_cols airport_col df) as [[grouped|e] df'];
    simpl in Hstate; subst df'; [|done].
  by destruct (merge_left _ _ _ _).
Qed.



(** X8: [display_counts] and [prepare_geospatial_data] only read the
    table they are given: whatever they return or raise, the caller's
    table is afterwards what it was before the call. *)
Theorem callers_table_unchanged (int_of_str : string → outcome Z)
    (df coords_df : DataFrame) (year airport month : cell)
    (year_col month_col airport_col cancelled_col diverted_col : string)
    (delay_cols : list string) (location_col iata_col : string) :
  (display_counts int_of_str year airport month
     year_col month_col airport_col cancelled_col diverted_col df).2 = df ∧
  (prepare_geospatial_data coords_df delay_cols location_col iata_col df).2
  = df.
Proof.
  split; [apply display_counts_state|apply prepare_geospatial_data_state].
Qed.

(** ** Groups: every located row is in exactly one *)

Lemma cell_eqb_refl (a : cell) : notna a = true → cell_eqb a a = true.
Proof.
  destruct a as [q|s|]; simpl; [|by rewrite bool_decide_eq_true_2|done].
  intros _. by apply Qeq_bool_iff.
Qed.

Lemma key_eqb_refl (k : key) : key_notna k = true → key_eqb k k = true.
Proof.
  induction k as [|a k IH]; [done|]. simpl.
  intros [Ha Hk]%andb_true_iff. by rewrite cell_eqb_refl, IH.
Qed.

Lemma key_eqb_notna (k y : key) : key_eqb k y = true → key_notna k = true.
Proof.
  revert y. induction k as [|a k IH]; intros [|b y]; simpl; try done.
  intros [Hab Hky]%andb_true_iff.
  apply cell_eqb_notna in Hab as [-> _]. simpl. by eapply IH.
Qed.

Lemma occurrences_Permutation (k : key) (l l' : list key) :
  l ≡ₚ l' → occurrences k l = occurrences k l'.
Proof. intros Hl. unfold occurrences. by rewrite Hl. Qed.

Lemma existsb_elem {A : Type} (f : A → bool) (l : list A) :
  existsb f l = true ↔ ∃ a, a ∈ l ∧ f a = true.
Proof.
  rewrite existsb_exists. split; intros (a & Ha & Hf); exists a;
    (split; [by apply list_elem_of_In|done]).
Qed.

Lemma occurrences_row_key (df : DataFrame) (keys : list string) (i : nat) :
  (i < nrows df)%nat →
  occurrences (row_key df keys i) (group_keys df keys)
  = if key_notna (row_key df keys i) then 1%nat else 0%nat.
Proof.
  intros Hi. unfold group_keys.
  rewrite (occurrences_Permutation _ _ _ (sort_keys_Permutation _)).
  rewrite occurrences_uniq.
  destruct (key_notna (row_key df keys i)) eqn:Hk.
  - assert (existsb (key_eqb (row_key df keys i))
              (filter (λ k, key_notna k = true)
                      (row_key df keys <$> row_indices df)) = true) as ->;
      [|done].
    apply existsb_elem. exists (row_key df keys i).
    split; [|by apply key_eqb_refl].
    apply list_elem_of_filter. split; [done|].
    apply list_elem_of_fmap. exists i. split; [done|].
    apply elem_of_seq. lia.
  - destruct (existsb _ _) eqn:Hex; [|done].
    apply existsb_elem in Hex as (y & _ & Hy).
    apply key_eqb_notna in Hy. congruence.
Qed.

Lemma Qsum_zero {A : Type} (l : list A) : (Qsum ((λ _, 0) <$> l) == 0)%Q.
Proof.
  induction l as [|a l IH]; [done|].
  change (0 + Qsum ((λ _, 0) <$> l) == 0)%Q. by rewrite IH.
Qed.

Lemma Qsum_plus {A : Type} (f g : A → Q) (l : list A) :
  (Qsum ((λ a, f a + g a) <$> l) == Qsum (f <$> l) + Qsum (g <$> l))%Q.
Proof.
  induction l as [|a l IH]; [done|].
  change (f a + g a + Qsum ((λ a, f a + g a) <$> l)
          == f a + Qsum (f <$> l) + (g a + Qsum (g <$> l)))%Q.
  rewrite IH. ring.
Qed.

Lemma Qsum_indicator (k : key) (x : Q) (l : list key) :
  (Qsum ((λ g, if key_eqb g k then x else 0) <$> l)
   == inject_Z (Z.of_nat (occurrences k l)) * x)%Q.
Proof.
  induction l as [|g l IH].
  - change (0 == inject_Z 0 * x)%Q. ring.
  - rewrite occurrences_cons, (key_eqb_sym k g).
    change ((if key_eqb g k then x else 0)
            + Qsum ((λ g, if key_eqb g k then x else 0) <$> l)
            == inject_Z (Z.of_nat
                 ((if key_eqb g k then 1 else 0) + occurrences k l)) * x)%Q.
    rewrite IH, Nat2Z.inj_add, inject_Z_plus.
    destruct (key_eqb g k).
    + change (inject_Z (Z.of_nat 1)) with 1%Q. ring.
    + change (inject_Z (Z.of_nat 0)) with 0%Q. ring.
Qed.

(** The totals of the groups add up to the total over the rows whose key
    has no missing value. *)
Lemma group_sums_conserved (df : DataFrame) (keys : list string)
    (v : nat → Q) (rows : list nat) :
  (∀ i, i ∈ rows → (i < nrows df)%nat) →
  (Qsum ((λ g, Qsum (v <$> filter
                       (λ i, key_eqb g (row_key df keys i) = true) rows))
           <$> group_keys df keys)
   == Qsum (v <$> filter (λ i, key_notna (row_key df keys i) = true) rows))%Q.
Proof.
  induction rows as [|i rows IH]; intros Hrows.
  - apply (Qsum_zero (group_keys df keys)).
  - rewrite (Qsum_fmap_ext _
      (λ g, (if key_eqb g (row_key df keys i) then v i else 0)
            + Qsum (v <$> filter
                      (λ i, key_eqb g (row_key df keys i) = true) rows))%Q).
    2:{ intros g. rewrite filter_cons.
        destruct (key_eqb g (row_key df keys i)) eqn:Hg.
        - rewrite decide_True by done. done.
        - rewrite decide_False by (by intros ?).
          by rewrite Qplus_0_l. }
    rewrite (Qsum_plus
               (λ g, if key_eqb g (row_key df keys i) then v i else 0%Q)).
    rewrite IH by (intros j Hj; apply Hrows; by right).
    rewrite Qsum_indicator, occurrences_row_key by (apply Hrows; left).
    rewrite filter_cons.
    destruct (key_notna (row_key df keys i)) eqn:Hk.
    + rewrite decide_True by done.
      change (inject_Z (Z.of_nat 1)) with 1%Q.
      rewrite fmap_cons.
      change (Qsum (v i :: ?l)) with (v i + Qsum l)%Q. ring.
    + rewrite decide_False by (by intros ?).
      change (inject_Z (Z.of_nat 0)) with 0%Q. ring.
Qed.

(** ** [prepare_geospatial_data]: the delay minutes are conserved *)

Lemma col_update_absent (c : string) (s : Series)
    (l : list (string * Series)) :
  c ∉ l.*1 → col_update c s l = (l ++ [(c, s)])%list.
Proof.
  induction l as [|[c' s'] l IH]; [done|]. simpl.
  intros Hc. rewrite decide_False by (intros ->; apply Hc; left).
  rewrite IH; [done|]. intros Hin. apply Hc. by right.
Qed.

Lemma join_row_unique (lkey rkey : Series) (i : nat) :
  (length (row_matches lkey rkey i) ≤ 1)%nat →
  (λ ij : nat * option nat, ij.1) <$> join_row lkey rkey i = [i].
Proof.
  unfold join_row. destruct (row_matches lkey rkey i) as [|j [|j' js]];
    simpl; [done|done|lia].
Qed.

Lemma left_join_pairs_unique (lkey rkey : Series) :
  (∀ i, (length (row_matches lkey rkey i) ≤ 1)%nat) →
  (λ ij : nat * option nat, ij.1) <$> left_join_pairs lkey rkey
  = seq 0 (length lkey).
Proof.
  intros Hunique. unfold left_join_pairs.
  induction (seq 0 (length lkey)) as [|i l IH]; [done|].
  rewrite bind_cons, fmap_app, IH, join_row_unique; done.
Qed.

Lemma lookup_via_fst (s : Series) (pairs : list (nat * option nat)) :
  (λ ij : nat * option nat, s !!! ij.1) <$> pairs
  = (λ i, s !!! i) <$> ((λ ij : nat * option nat, ij.1) <$> pairs).
Proof. by rewrite <- list_fmap_compose. Qed.

Lemma located_rows (df : DataFrame) (c : string) :
  filter (λ i, key_notna (row_key df [c] i) = true) (row_indices df)
  = filter (λ i, notna (col_total df c !!! i) = true) (row_indices df).
Proof.
  apply filter_ext_elem. intros i _. unfold row_key. simpl.
  by rewrite andb_true_r.
Qed.

Lemma group_totals_conserved (df : DataFrame) (keys : list string)
    (c : string) :
  (Qsum ((λ g, group_total df keys c g) <$> group_keys df keys)
   == column_sum df c
        (filter (λ i, key_notna (row_key df keys i) = true)
                (row_indices df)))%Q.
Proof.
  rewrite (Qsum_fmap_ext _
    (λ g, column_sum df c (group_rows df keys g))
    _ (λ g, group_total_sum df keys c g)).
  apply (group_sums_conserved df keys
           (λ i, cell_value (col_total df c !!! i))).
  intros i Hi. apply elem_of_seq in Hi. simpl in Hi. lia.
Qed.



(** ** Groups: in key order, each key once *)

Lemma key_leb_total (k1 k2 : key) :
  key_leb k1 k2 = true ∨ key_leb k2 k1 = true.
Proof.
  revert k2. induction k1 as [|a k1 IH]; intros [|b k2]; simpl; auto.
  rewrite (cell_eqb_sym b a).
  destruct (cell_eqb a b); [apply IH|apply cell_leb_total].
Qed.

Lemma insert_key_Sorted (k : key) (l : list key) :
  Sorted (λ a b, key_leb a b = true) l →
  Sorted (λ a b, key_leb a b = true) (insert_key k l).
Proof.
  induction 1 as [|k' l Hl IH Hhd]; simpl.
  - by repeat constructor.
  - destruct (key_leb k k') eqn:Hk.
    + constructor; [by constructor|by constructor].
    + constructor; [exact IH|].
      assert (key_leb k' k = true) as Hk'
        by (destruct (key_leb_total k k'); congruence).
      destruct Hhd as [|k'' l' Hk'']; simpl; [by constructor|].
      destruct (key_leb k k''); by constructor.
Qed.

Lemma sort_keys_Sorted (l : list key) :
  Sorted (λ a b, key_leb a b = true) (sort_keys l).
Proof.
  induction l as [|k l IH]; [constructor|]. by apply insert_key_Sorted.
Qed.

Lemma filter_two {A : Type} (P : A → Prop) `{∀ x, Decision (P x)}
    (l : list A) (i j : nat) (a b : A) :
  l !! i = Some a → l !! j = Some b → i ≠ j → P a → P b →
  (2 ≤ length (filter P l))%nat.
Proof.
  assert (∀ (l : list A) j b, l !! j = Some b → P b →
            (1 ≤ length (filter P l))%nat) as Hone.
  { intros l' j' b' Hb HP.
    assert (b' ∈ filter P l') as Hin.
    { apply list_elem_of_filter. split; [done|].
      by eapply list_elem_of_lookup_2. }
    destruct (filter P l'); [by apply not_elem_of_nil in Hin|simpl; lia]. }
  revert i j. induction l as [|x l IH]; intros i j Hi Hj Hne Ha Hb; [done|].
  destruct i as [|i], j as [|j]; simpl in *; [done|..].
  - injection Hi as ->. rewrite filter_cons_True by done. simpl.
    pose proof (Hone l j b Hj Hb). lia.
  - injection Hj as ->. rewrite filter_cons_True by done. simpl.
    pose proof (Hone l i a Hi Ha). lia.
  - assert (2 ≤ length (filter P l))%nat as Hl by (eapply IH; eauto).
    rewrite filter_cons. destruct (decide (P x)); simpl; lia.
Qed.

Lemma occurrences_group_keys (df : DataFrame) (keys : list string) (k : key) :
  (occurrences k (group_keys df keys) ≤ 1)%nat.
Proof.
  unfold group_keys.
  rewrite (occurrences_Permutation _ _ _ (sort_keys_Permutation _)).
  rewrite occurrences_uniq. destruct (existsb _ _); lia.
Qed.

Lemma group_keys_distinct (df : DataFrame) (keys : list string)
    (i j : nat) (g g' : key) :
  group_keys df keys !! i = Some g → group_keys df keys !! j = Some g' →
  i ≠ j → key_eqb g g' = false.
Proof.
  intros Hi Hj Hne. destruct (key_eqb g g') eqn:Heq; [|done].
  pose proof (occurrences_group_keys df keys g) as Hle.
  assert (2 ≤ occurrences g (group_keys df keys))%nat; [|lia].
  unfold occurrences.
  apply (filter_two (λ y, key_eqb g y = true) _ i j g g'); try done.
  apply key_eqb_refl. by eapply key_eqb_notna.
Qed.

Lemma group_keys_complete (df : DataFrame) (keys : list string) (i : nat) :
  (i < nrows df)%nat → key_notna (row_key df keys i) = true →
  ∃ g, g ∈ group_keys df keys ∧ key_eqb g (row_key df keys i) = true.
Proof.
  intros Hi Hk. pose proof (occurrences_row_key df keys i Hi) as Hocc.
  rewrite Hk in Hocc. unfold occurrences in Hocc.
  destruct (filter _ (group_keys df keys)) as [|g l] eqn:Hfilter; [done|].
  assert (g ∈ filter (λ y, key_eqb (row_key df keys i) y = true)
                     (group_keys df keys)) as Hg
    by (rewrite Hfilter; left).
  apply list_elem_of_filter in Hg as [Heq Hg].
  exists g. split; [done|]. by rewrite key_eqb_sym.
Qed.

Lemma cell_leb_refl (a : cell) : cell_leb a a = true.
Proof. by destruct (cell_leb_total a a). Qed.

Lemma cell_eqb_leb (a b : cell) : cell_eqb a b = true → cell_leb a b = true.
Proof.
  destruct a as [p|s|], b as [q|t|]; simpl; try done.
  - rewrite Qeq_bool_iff, Qle_bool_iff. intros ->. apply Qle_refl.
  - intros ->%bool_decide_eq_true. apply (cell_leb_refl (Str t)).
Qed.

Lemma Sorted_weaken {A : Type} (R R' : A → A → Prop) (P : A → Prop)
    (l : list A) :
  (∀ a b, P a → P b → R a b → R' a b) →
  Forall P l → Sorted R l → Sorted R' l.
Proof.
  intros HR HP Hl. induction Hl as [|a l Hl IH Hhd]; [constructor|].
  apply Forall_cons in HP as [Ha HP].
  constructor; [by apply IH|].
  destruct Hhd as [|b l' Hab]; constructor.
  apply Forall_cons in HP as [Hb _]. by apply HR.
Qed.

(** Repeating the entries of a sorted list keeps it sorted. *)
Lemma Sorted_repeat {A : Type} (R : A → A → Prop) (m : A → nat)
    (l : list A) :
  (∀ a, R a a) → (∀ a, 1 ≤ m a)%nat →
  Sorted R l → Sorted R (l ≫= λ a, replicate (m a) a).
Proof.
  intros Hrefl Hm.
  assert (∀ a n l', Sorted R l' → HdRel R a l' →
            Sorted R (replicate n a ++ l') ∧
            HdRel R a (replicate n a ++ l')) as Hrep.
  { intros a n l' Hl' Hhd. induction n as [|n [IH IHhd]]; [done|].
    simpl. split; constructor; [done..|apply Hrefl]. }
  induction 1 as [|a l Hl IH Hhd]; [constructor|].
  rewrite bind_cons. apply Hrep; [done|].
  destruct Hhd as [|b l' Hab]; [constructor|].
  rewrite bind_cons. specialize (Hm b).
  destruct (m b) as [|n]; [lia|]. by constructor.
Qed.

Lemma join_row_replicate (lkey rkey : Series) (i : nat) :
  (λ ij : nat * option nat, ij.1) <$> join_row lkey rkey i
  = replicate (max 1 (length (row_matches lkey rkey i))) i.
Proof.
  unfold join_row. destruct (row_matches lkey rkey i) as [|j js]; [done|].
  change (max 1 (length (j :: js))) with (length (j :: js)).
  generalize (j :: js). intros l.
  induction l as [|j' js' IH]; [done|]. simpl. f_equal. exact IH.
Qed.

Lemma left_join_pairs_replicate (lkey rkey : Series) :
  (λ ij : nat * option nat, ij.1) <$> left_join_pairs lkey rkey
  = seq 0 (length lkey)
      ≫= λ i, replicate (max 1 (length (row_matches lkey rkey i))) i.
Proof.
  unfold left_join_pairs.
  induction (seq 0 (length lkey)) as [|i l IH]; [done|].
  by rewrite !bind_cons, fmap_app, IH, join_row_replicate.
Qed.

(** ** [prepare_geospatial_data]: the locations of the result *)

Lemma Sorted_fmap_inv {A B : Type} (R : relation B) (f : A → B)
    (l : list A) :
  Sorted R (f <$> l) → Sorted (λ x y, R (f x) (f y)) l.
Proof.
  induction l as [|a l IH]; [constructor|].
  rewrite fmap_cons. intros Hl. apply Sorted_inv in Hl as [Hl Hhd].
  constructor; [by apply IH|].
  destruct l as [|b l]; constructor. by apply HdRel_inv in Hhd.
Qed.

Section locations.

Context (df : DataFrame) (airport_col : string).

Let groups : list key := group_keys df [airport_col].
Let locations : Series := (λ k : key, k !!! 0%nat) <$> groups.

Lemma group_location (g : key) :
  g ∈ groups →
  ∃ i, (i < nrows df)%nat ∧ g = [col_total df airport_col !!! i] ∧
       notna (col_total df airport_col !!! i) = true.
Proof.
  intros (Hk & i & Hi & ->)%group_keys_elem. exists i.
  split; [done|]. split; [done|].
  unfold row_key, key_notna in Hk. simpl in Hk. by rewrite andb_true_r in Hk.
Qed.

Lemma locations_lookup (i : nat) (a : cell) :
  locations !! i = Some a → groups !! i = Some [a].
Proof.
  unfold locations. rewrite list_lookup_fmap.
  destruct (groups !! i) as [g|] eqn:Hg; [|done]. simpl. intros [= <-].
  by destruct (group_location g (list_elem_of_lookup_2 _ _ _ Hg))
    as (j & _ & -> & _).
Qed.

Lemma locations_notna : Forall (λ a, notna a = true) locations.
Proof.
  apply Forall_fmap, Forall_forall. intros g Hg. simpl.
  by destruct (group_location g Hg) as (i & _ & -> & Hi).
Qed.

Lemma locations_Sorted : Sorted (λ a b, cell_leb a b = true) locations.
Proof.
  apply (Sorted_fmap _ (λ g g' : key,
                          cell_leb (g !!! 0%nat) (g' !!! 0%nat) = true));
    [done|].
  apply (Sorted_weaken (λ a b, key_leb a b = true) _ (λ g, g ∈ groups)).
  - intros g g' (i & _ & -> & _)%group_location
      (j & _ & -> & _)%group_location.
    simpl.
    change ([?a] !!! 0%nat) with a.
    destruct (cell_eqb _ _) eqn:Heq; [|done]. intros _.
    by apply cell_eqb_leb.
  - by apply Forall_forall.
  - apply sort_keys_Sorted.
Qed.

Lemma locations_distinct (i j : nat) (a b : cell) :
  locations !! i = Some a → locations !! j = Some b → i ≠ j →
  cell_eqb a b = false.
Proof.
  intros Ha%locations_lookup Hb%locations_lookup Hne.
  pose proof (group_keys_distinct df [airport_col] i j _ _ Ha Hb Hne) as Heq.
  simpl in Heq. by rewrite andb_true_r in Heq.
Qed.

Lemma locations_complete (i : nat) :
  (i < nrows df)%nat → notna (col_total df airport_col !!! i) = true →
  ∃ a, a ∈ locations ∧ cell_eqb a (col_total df airport_col !!! i) = true.
Proof.
  intros Hi Hk.
  destruct (group_keys_complete df [airport_col] i Hi) as (g & Hg & Heq).
  { unfold row_key, key_notna. simpl. by rewrite andb_true_r. }
  destruct (group_location g Hg) as (j & _ & -> & _).
  exists (col_total df airport_col !!! j). split.
  - apply list_elem_of_fmap. by exists [col_total df airport_col !!! j].
  - unfold row_key in Heq. simpl in Heq. by rewrite andb_true_r in Heq.
Qed.

Lemma locations_sound (a : cell) :
  a ∈ locations → ∃ i, (i < nrows df)%nat ∧ a = col_total df airport_col !!! i.
Proof.
  intros (g & -> & Hg)%list_elem_of_fmap.
  destruct (group_location g Hg) as (i & Hi & -> & _). by exists i.
Qed.

Lemma joined_locations_Sorted (rkey : Series) :
  Sorted (λ a b, cell_leb a b = true)
    ((λ ij : nat * option nat, locations !!! ij.1)
       <$> left_join_pairs locations rkey).
Proof.
  rewrite lookup_via_fst, left_join_pairs_replicate.
  apply (Sorted_fmap _ (λ i j, cell_leb (locations !!! i) (locations !!! j)
                               = true)); [done|].
  apply (Sorted_repeat _
           (λ i, max 1 (length (row_matches locations rkey i)))).
  - intros i. apply cell_leb_refl.
  - intros i. lia.
  - apply (Sorted_fmap_inv (λ a b, cell_leb a b = true)
             (λ i, locations !!! i)).
    rewrite fmap_lookup_seq. apply locations_Sorted.
Qed.

End locations.



(** ** [prepare_geospatial_data]: the coordinates of a matched row *)

Lemma join_row_elem (lkey rkey : Series) (i i' j : nat) :
  (i', Some j) ∈ join_row lkey rkey i ↔ i' = i ∧ j ∈ row_matches lkey rkey i.
Proof.
  unfold join_row.
  destruct (row_matches lkey rkey i) as [|j0 js] eqn:Hmatches.
  - rewrite list_elem_of_singleton. split; [done|].
    intros [_ Hj]. by apply not_elem_of_nil in Hj.
  - rewrite list_elem_of_fmap. split.
    + by intros (j' & [= -> ->] & Hj).
    + intros [-> Hj]. by exists j.
Qed.

Lemma left_join_pairs_elem (lkey rkey : Series) (i j : nat) :
  (i, Some j) ∈ left_join_pairs lkey rkey ↔
  (i < length lkey)%nat ∧ (j < length rkey)%nat ∧
  cell_eqb (lkey !!! i) (rkey !!! j) = true.
Proof.
  unfold left_join_pairs. rewrite list_elem_of_bind. split.
  - intros (i' & Hij & Hi'). apply join_row_elem in Hij as [-> Hj].
    apply elem_of_seq in Hi'. unfold row_matches in Hj.
    apply list_elem_of_filter in Hj as [Heq Hj]. apply elem_of_seq in Hj.
    split; [lia|]. split; [lia|done].
  - intros (Hi & Hj & Heq). exists i. split; [|apply elem_of_seq; lia].
    apply join_row_elem. split; [done|]. unfold row_matches.
    apply list_elem_of_filter. split; [done|]. apply elem_of_seq. lia.
Qed.

Lemma merge_left_right (left right : DataFrame) (left_on right_on : string) :
  left_on ∈ columns left → right_on ∈ columns right →
  let pairs :=
    left_join_pairs (col_total left left_on) (col_total right right_on) in
  let rcols :=
    if decide (left_on = right_on)
    then filter (λ p, p.1 ≠ right_on) (cols right) else cols right in
  ∃ merged,
    merge_left left right left_on right_on = Ok merged ∧
    ∀ k name s, rcols !! k = Some (name, s) →
      cols merged !! (length (cols left) + k)%nat
      = Some (if bool_decide (name ∈ columns left) then name ++ "_y"
              else name,
              (λ ij : nat * option nat,
                 match ij.2 with Some j => s !!! j | None => NaN end)
                <$> pairs).
Proof.
  intros Hl Hr pairs rcols. unfold merge_left.
  rewrite (getitem_present _ _ Hl), (getitem_present _ _ Hr). simpl.
  eexists. split; [done|]. intros k name s Hk. simpl.
  rewrite lookup_app_r by (rewrite length_fmap; lia).
  rewrite length_fmap.
  replace (length (cols left) + k - length (cols left))%nat with k by lia.
  rewrite list_lookup_fmap. fold rcols. rewrite Hk. simpl.
  f_equal. f_equal.
  assert (name ∈ rcols.*1) as Hin.
  { apply list_elem_of_fmap. exists (name, s).
    split; [done|]. by eapply list_elem_of_lookup_2. }
  destruct (decide (name ∈ columns left)) as [Hyes|Hno].
  - by rewrite !bool_decide_eq_true_2.
  - rewrite !bool_decide_eq_false_2; [done|done|]. by intros [? _].
Qed.



(** ** [compute_combo_chart]: the table after the call *)

Lemma delay_row (df : DataFrame) (delay_factors : list string) (i : nat) :
  row (mkDF (nrows df) ((λ c, (c, col_total df c)) <$> delay_factors)) i
  = (λ c, col_total df c !!! i) <$> delay_factors.
Proof. unfold row. simpl. by rewrite <- list_fmap_compose. Qed.

Lemma delay_totals (df : DataFrame) (delay_factors : list string) :
  Forall (numeric df) delay_factors →
  sum_axis1 (mkDF (nrows df) ((λ c, (c, col_total df c)) <$> delay_factors))
  = Ok ((λ i, Num (Qsuml ((λ c, cell_value (col_total df c !!! i))
                            <$> delay_factors)))
          <$> row_indices df).
Proof.
  intros Hnumeric. rewrite sum_axis1_numeric.
  2:{ simpl. apply Forall_fmap, Forall_forall. intros c Hc. simpl.
      rewrite Forall_forall in Hnumeric. by apply Hnumeric. }
  f_equal. apply list_fmap_ext. intros _ i _.
  by rewrite delay_row, <- list_fmap_compose.
Qed.



(** ** [compute_combo_chart]: the rows of the ranked table *)

Lemma col_lookup_app (c : string) (l1 l2 : list (string * Series)) :
  col_lookup c (l1 ++ l2)
  = match col_lookup c l1 with
    | Some s => Some s
    | None => col_lookup c l2
    end.
Proof.
  induction l1 as [|[c' s'] l1 IH]; [done|]. simpl.
  by destruct (decide (c = c')).
Qed.

Lemma col_lookup_tabulate (f : string → Series) (c : string)
    (cs : list string) :
  c ∈ cs → col_lookup c ((λ c, (c, f c)) <$> cs) = Some (f c).
Proof.
  induction cs as [|c' cs IH]; [by intros ?%not_elem_of_nil|].
  intros Hc. simpl. destruct (decide (c = c')) as [->|Hne]; [done|].
  apply IH. by apply elem_of_cons in Hc as [?|?].
Qed.

Lemma Qsum_exchange {A B : Type} (v : A → B → Q) (cs : list A)
    (rows : list B) :
  (Qsum ((λ i, Qsum ((λ c, v c i) <$> cs)) <$> rows)
   == Qsum ((λ c, Qsum ((λ i, v c i) <$> rows)) <$> cs))%Q.
Proof.
  induction rows as [|i rows IH].
  - simpl. symmetry. apply (Qsum_zero cs).
  - rewrite fmap_cons.
    change (Qsum (?q :: ?l)) with (q + Qsum l)%Q. rewrite IH.
    rewrite <- (Qsum_plus (λ c, v c i)
                  (λ c, Qsum ((λ i, v c i) <$> rows))).
    by apply Qsum_fmap_ext.
Qed.

Lemma group_rows_setitem (df : DataFrame) (c : string) (s : Series)
    (keys : list string) (g : key) :
  c ∉ keys → group_rows (setitem df c s) keys g = group_rows df keys g.
Proof.
  intros Hc. unfold group_rows, row_indices. simpl.
  apply filter_ext_elem. intros i _.
  assert (row_key (setitem df c s) keys i = row_key df keys i) as ->; [|done].
  unfold row_key. apply list_fmap_ext. intros j c' Hc'.
  rewrite col_total_setitem_ne; [done|].
  intros ->. apply Hc. by eapply list_elem_of_lookup_2.
Qed.

Section ranked_table.

Context (argsort : list cell → list nat) (Hspec : argsort_spec argsort).
Context (entity factor : string).
Context (entity_options : gmap string (string * string)).
Context (delay_factors : list string).
Context (name_col code_col : string).
Context (df df' : DataFrame) (out : combo).

Hypothesis Hentity : entity_options !! entity = Some (name_col, code_col).
Hypothesis Hdelays : Forall (λ c, c ∈ columns df) delay_factors.
Hypothesis Hnumeric : Forall (numeric df) delay_factors.
Hypothesis Hrest :
  ∀ c, c ∈ columns df → c ∉ [code_col; name_col] → c ≠ "total_delay" →
       numeric df c.
Hypothesis Hfresh : "total_delay" ∉ [code_col; name_col].
Hypothesis Hrun :
  compute_combo_chart argsort entity factor entity_options delay_factors df
  = (Ok out, df').

Let keys : list string := [code_col; name_col].
Let groups : list key := group_keys df keys.

Let total : Series :=
  (λ i, Num (Qsuml ((λ c, cell_value (col_total df c !!! i))
                      <$> delay_factors)))
    <$> row_indices df.

Let summed (c : string) : Series :=
  (λ g, Num (group_total df' keys c g)) <$> groups.

Let grouped : DataFrame :=
  mkDF (length groups)
       ([(code_col, (λ k : key, k !!! 0%nat) <$> groups);
         (name_col, (λ k : key, k !!! 1%nat) <$> groups)]
        ++ ((λ c, (c, summed c)) <$> filter (λ c, c ∉ keys) (columns df'))).

Lemma ranked_explicit :
  df' = setitem df "total_delay" total ∧
  code_col ≠ name_col ∧
  ranked out
  = head 10 (take_rows grouped
               (nargsort argsort (summed "total_delay") false)).
Proof.
  pose proof Hrun as Hsteps.
  apply combo_steps in Hsteps
    as (names & delays & total0 & g & grouped0 & items0 & Hnames & Hread
        & Htotal & Hdf' & Hg & Hgrouped & Hitems & Hranked & _).
  rewrite Hentity in Hnames. injection Hnames as <-. simpl in Hg.
  rewrite getitem_list_present in Hread by done. injection Hread as <-.
  rewrite delay_totals in Htotal by done. injection Htotal as <-.
  fold total in Hdf'.
  assert (numeric df' "total_delay") as Htotal.
  { unfold numeric, col_total. rewrite Hdf'. unfold setitem. simpl.
    rewrite col_lookup_update_eq. simpl. by apply Forall_fmap, Forall_forall. }
  assert (∀ c, c ∈ columns df' → c ∉ keys → numeric df' c) as Hnum'.
  { intros c Hc Hk. destruct (decide (c = "total_delay")) as [->|Hc']; [done|].
    unfold numeric. rewrite Hdf', col_total_setitem_ne by done.
    apply Hrest; [|done..]. rewrite Hdf' in Hc.
    unfold columns, setitem in Hc. simpl in Hc.
    apply columns_update in Hc as [?|?]; done. }
  pose proof (groupby_sum_Ok _ _ _ _ Hg) as (Hkeys & _).
  rewrite groupby_sum_all in Hg by done. injection Hg as <-.
  assert (group_keys df' keys = groups) as Hgroups.
  { rewrite Hdf'. by apply group_keys_setitem. }
  fold keys in Hgrouped. rewrite Hgroups in Hgrouped.
  unfold reset_index in Hgrouped. simpl in Hgrouped.
  case_bool_decide as Hlevels; [|done]. injection Hgrouped as <-.
  destruct Hlevels as [Hnodup _].
  assert (code_col ≠ name_col) as Hne.
  { apply NoDup_cons in Hnodup as [Hne _]. intros ->. apply Hne. left. }
  split; [done|]. split; [done|].
  rewrite Hranked. do 3 f_equal.
  revert Hitems. unfold getitem. simpl.
  rewrite decide_False by (intros Heq; apply Hfresh; rewrite Heq; left).
  rewrite decide_False
    by (intros Heq; apply Hfresh; rewrite Heq; right; left).
  rewrite (col_lookup_tabulate (λ c, (λ g, Num (group_total df' keys c g))
                                       <$> groups)).
  { by intros [= <-]. }
  apply list_elem_of_filter. split; [done|].
  rewrite Hdf'. unfold columns, setitem. simpl. apply columns_update. by left.
Qed.

Let order : list nat := nargsort argsort (summed "total_delay") false.

Lemma order_Permutation : order ≡ₚ seq 0 (length groups).
Proof.
  unfold order.
  rewrite (nargsort_Permutation argsort Hspec (summed "total_delay") false).
  unfold summed. by rewrite length_fmap.
Qed.

Lemma ranked_nrows : nrows (ranked out) = min 10 (length groups).
Proof.
  destruct ranked_explicit as (_ & _ & ->).
  trans (min 10 (length order)); [done|].
  by rewrite (Permutation_length order_Permutation), length_seq.
Qed.

Lemma ranked_order (r : nat) :
  (r < nrows (ranked out))%nat →
  ∃ i g, order !! r = Some i ∧ groups !! i = Some g.
Proof.
  rewrite ranked_nrows. intros Hr.
  destruct (lookup_lt_is_Some_2 order r) as [i Hi].
  { rewrite (Permutation_length order_Permutation), length_seq. lia. }
  assert (i ∈ seq 0 (length groups)) as Hin.
  { rewrite <- order_Permutation. by eapply list_elem_of_lookup_2. }
  apply elem_of_seq in Hin.
  destruct (lookup_lt_is_Some_2 groups i) as [g Hg]; [lia|].
  by exists i, g.
Qed.

Lemma ranked_cell (c : string) (s : Series) (r i : nat) :
  col_lookup c (cols grouped) = Some s →
  (r < nrows (ranked out))%nat → order !! r = Some i →
  col_total (ranked out) c !! r = Some (s !!! i).
Proof.
  intros Hs Hr Hi. rewrite ranked_nrows in Hr.
  destruct ranked_explicit as (_ & _ & ->). fold order.
  rewrite (col_total_head_take_rows _ _ _ _ s)
    by (unfold getitem; by rewrite Hs).
  rewrite lookup_take_lt by lia.
  by rewrite list_lookup_fmap, Hi.
Qed.

Lemma grouped_code :
  col_lookup code_col (cols grouped)
  = Some ((λ k : key, k !!! 0%nat) <$> groups).
Proof. simpl. by rewrite decide_True. Qed.

Lemma grouped_name :
  col_lookup name_col (cols grouped)
  = Some ((λ k : key, k !!! 1%nat) <$> groups).
Proof.
  destruct ranked_explicit as (_ & Hne & _). simpl.
  rewrite decide_False by done. by rewrite decide_True.
Qed.

Lemma grouped_summed (c : string) :
  c ∈ columns df' → c ∉ keys →
  col_lookup c (cols grouped) = Some (summed c).
Proof.
  intros Hc Hk. simpl.
  rewrite decide_False by (intros ->; apply Hk; left).
  rewrite decide_False by (intros ->; apply Hk; right; left).
  apply (col_lookup_tabulate summed). by apply list_elem_of_filter.
Qed.

Lemma summed_other (c : string) (g : key) :
  c ≠ "total_delay" →
  group_total df' keys c g = group_total df keys c g.
Proof.
  intros Hc. destruct ranked_explicit as (-> & _).
  unfold group_total, group_cells.
  rewrite group_rows_setitem by done.
  by rewrite col_total_setitem_ne.
Qed.

Lemma summed_total (g : key) :
  (group_total df' keys "total_delay" g
   == Qsum ((λ c, column_sum df c (group_rows df keys g))
              <$> delay_factors))%Q.
Proof.
  rewrite group_total_sum. destruct ranked_explicit as (-> & _).
  rewrite group_rows_setitem by done.
  unfold column_sum.
  rewrite <- (Qsum_exchange (λ c i, cell_value (col_total df c !!! i))).
  assert (∀ i, i ∈ group_rows df keys g →
            (cell_value (col_total (setitem df "total_delay" total)
                           "total_delay" !!! i)
             == Qsum ((λ c, cell_value (col_total df c !!! i))
                        <$> delay_factors))%Q) as Hcell.
  { intros i Hi. apply list_elem_of_filter in Hi as [_ Hi].
    apply elem_of_seq in Hi. simpl in Hi.
    unfold col_total, setitem. simpl. rewrite col_lookup_update_eq. simpl.
    unfold total, row_indices.
    rewrite (lookup_total_fmap_seq _ (nrows df) i) by lia. simpl.
    apply Qsuml_Qsum. }
  induction (group_rows df keys g) as [|i rows IH]; [done|].
  rewrite !fmap_cons.
  change (Qsum (?q :: ?l)) with (q + Qsum l)%Q.
  rewrite Hcell by left. rewrite IH; [done|].
  intros j Hj. apply Hcell. by right.
Qed.

End ranked_table.



(** ** [compute_combo_chart]: the ten rows kept *)

Global Instance num_ge_trans : Transitive num_ge.
Proof.
  intros [p| |] [q| |] [r| |]; simpl; try done.
  intros Hqp Hrq. by eapply Qle_trans.
Qed.

Lemma Sorted_num_ge (l : list cell) :
  Forall (λ v, is_num v = true) l →
  Sorted (λ x y, cell_leb y x = true) l → StronglySorted num_ge l.
Proof.
  intros Hnum Hsorted. apply Sorted_StronglySorted; [apply num_ge_trans|].
  apply (Sorted_weaken (λ x y, cell_leb y x = true) _
           (λ v, is_num v = true)); [|done..].
  intros [p| |] [q| |]; simpl; try done.
  intros _ _. by apply Qle_bool_iff.
Qed.



(** ** [compute_combo_chart]: calling again *)

(** X15: a second call on the same table object gives what the first
    gave.  When [total_delay] is not itself one of the delay-cause
    columns, calling again on the table as the first call left it
    returns the same chart, or raises the same error, and leaves the
    table as it was after the first call. *)
Theorem combo_chart_repeatable (argsort : list cell → list nat)
    (entity factor : string) (entity_options : gmap string (string * string))
    (delay_factors : list string) (df : DataFrame) :
  "total_delay" ∉ delay_factors →
  let call :=
    compute_combo_chart argsort entity factor entity_options delay_factors in
  call (call df).2 = call df.
Proof.
  intros Hfresh call. subst call.
  destruct (entity_options !! entity) as [names|] eqn:Hentity.
  2:{ assert ((compute_combo_chart argsort entity factor entity_options
                 delay_factors df).2 = df) as ->; [|done].
      unfold compute_combo_chart, mbind, Py_bind, lift, dict_getitem.
      by rewrite Hentity. }
  destruct (getitem_list df delay_factors) as [delays|e] eqn:Hread.
  2:{ assert ((compute_combo_chart argsort entity factor entity_options
                 delay_factors df).2 = df) as ->; [|done].
      unfold compute_combo_chart, mbind, Py_bind, lift, reads, dict_getitem.
      rewrite Hentity. simpl. by rewrite Hread. }
  destruct (sum_axis1 delays) as [total|e] eqn:Htotal.
  2:{ assert ((compute_combo_chart argsort entity factor entity_options
                 delay_factors df).2 = df) as ->; [|done].
      unfold compute_combo_chart, mbind, Py_bind, lift, reads, dict_getitem.
      rewrite Hentity. simpl. rewrite Hread. simpl. by rewrite Htotal. }
  set (df' := setitem df "total_delay" total).
  assert (∀ σ, getitem_list σ delay_factors = Ok delays →
            setitem σ "total_delay" total = df' →
            compute_combo_chart argsort entity factor entity_options
              delay_factors σ
            = compute_combo_chart argsort entity factor entity_options
                delay_factors df ∧
            (compute_combo_chart argsort entity factor entity_options
               delay_factors σ).2 = df') as Hcall.
  { intros σ Hσ Hset.
    unfold compute_combo_chart, mbind, Py_bind, lift, reads, assign,
      dict_getitem, sort_values, outcome_bind.
    rewrite Hentity, Hσ, Hread, Htotal. simpl. rewrite Hset. fold df'.
    split; [done|].
    destruct (groupby_sum df' _ None) as [g|]; [|done].
    destruct (reset_index g) as [grouped|]; [|done].
    destruct (getitem grouped "total_delay") as [items|]; [|done]. simpl.
    by destruct (existsb is_num items && existsb is_str items). }
  destruct (Hcall df Hread eq_refl) as [_ ->].
  apply Hcall.
  - unfold df'. by rewrite getitem_list_setitem.
  - unfold df', setitem. simpl. by rewrite col_update_idemp.
Qed.

Lemma combo_chart_repeatable_witness :
  let call :=
    compute_combo_chart argsort_stable "Airline" "weather_delay"
      airline_options ["weather_delay"; "carrier_delay"] in
  call (call carriers).2 = call carriers.
Proof.
  apply (combo_chart_repeatable argsort_stable "Airline" "weather_delay"
           airline_options ["weather_delay"; "carrier_delay"] carriers).
  by_compute.
Defined.

(** ** [compute_combo_chart]: what the bars add up to *)



(** ** [validate_data] before [display_counts] *)

Lemma add_all_raises (acc : cell) (l : list cell) (e : pyexc) :
  add_all acc l = Raise e → e = TypeError.
Proof.
  revert acc. induction l as [|c l IH]; intros acc; simpl; [done|].
  destruct (py_add acc c) as [acc'|e'] eqn:Hadd; simpl.
  - apply IH.
  - intros [= <-]. destruct acc, c; simpl in Hadd; congruence.
Qed.

Lemma nansum_raises (l : list cell) (e : pyexc) :
  nansum l = Raise e → e = TypeError.
Proof.
  unfold nansum, reduce_add. destruct (fillna0 <$> l) as [|c l']; [done|].
  apply add_all_raises.
Qed.

Lemma int_sum_raises (int_of_str : string → outcome Z) (table : DataFrame)
    (c : string) (names : list string) :
  (∀ s names, int_of_str s ≠ Raise (KeyError names)) →
  c ∈ columns table →
  int_sum int_of_str table c ≠ Raise (KeyError names).
Proof.
  intros Hint Hc. unfold int_sum. rewrite getitem_present by done. simpl.
  destruct (nansum (col_total table c)) as [total|e] eqn:Hsum; simpl.
  - destruct total; simpl; [done|apply Hint|done].
  - apply nansum_raises in Hsum as ->. done.
Qed.

Lemma valid_present (R : list string) (df : DataFrame) (rep : report)
    (c : string) :
  report_of R df = Some rep → is_valid rep = true → c ∈ R → c ∈ columns df.
Proof.
  unfold report_of. rewrite validate_data_run. simpl. intros [= <-]. simpl.
  intros [Hmissing _]%andb_true_iff Hc.
  apply bool_decide_eq_true in Hmissing.
  destruct (decide (c ∈ columns df)) as [|Hno]; [done|].
  assert (c ∈ filter (λ c, c ∉ columns df) R) as Hin
    by (by apply list_elem_of_filter).
  rewrite Hmissing in Hin. by apply not_elem_of_nil in Hin.
Qed.


